(** * Advanced Memory Bank: topic store, memory store and project detection

    A shallow embedding of [src/core/topic-memory-manager.ts]
    (class [TopicMemoryManager]) and of the [MemoryManager] class
    (memory-manager.ts), with the properties of the two stores, of the
    ranked search and of the project-name detection cascade.

    Conventions of the embedding.
    - A JavaScript string is a [string]; [toLowerCase] folds the ASCII
      letters A-Z and leaves every other code unit alone.
    - A JavaScript number that holds an importance, a timestamp or a limit
      is a [Z].
    - [Date.now()], the generated memory id and the success of each file
      write or unlink are inputs of the operation that uses them.
    - A project document is a JavaScript object used as a map from topic
      name to record.  Only its own properties are modelled, in the order
      [Object.keys] enumerates them. *)

From Stdlib Require Import ZArith NArith List String Ascii Bool Lia.
From Stdlib Require Import Sorted Permutation DecimalString.
From stdpp Require Import gmap strings.

Import ListNotations.
Local Open Scope string_scope.
Local Open Scope Z_scope.

(** ** JavaScript strings *)

Module JsString.

Definition lower_ascii (c : ascii) : ascii :=
  let n := N_of_ascii c in
  if ((65 <=? n) && (n <=? 90))%N then ascii_of_N (n + 32) else c.

Definition upper_ascii (c : ascii) : ascii :=
  let n := N_of_ascii c in
  if ((97 <=? n) && (n <=? 122))%N then ascii_of_N (n - 32) else c.

(** [s.toLowerCase()] *)
Fixpoint toLowerCase (s : string) : string :=
  match s with
  | EmptyString => EmptyString
  | String c s' => String (lower_ascii c) (toLowerCase s')
  end.

(** [s.startsWith(q)] *)
Fixpoint startsWith (s q : string) : bool :=
  match q, s with
  | EmptyString, _ => true
  | String _ _, EmptyString => false
  | String a q', String b s' => Ascii.eqb a b && startsWith s' q'
  end.

(** [s.includes(q)] *)
Fixpoint includes (s q : string) : bool :=
  startsWith s q ||
  match s with
  | EmptyString => false
  | String _ s' => includes s' q
  end.

(** [topic.charAt(0).toUpperCase() + topic.slice(1)] *)
Definition capitalize (s : string) : string :=
  match s with
  | EmptyString => EmptyString
  | String c s' => String (upper_ascii c) s'
  end.

End JsString.

(** [Math.max(1, Math.min(10, importance))] *)
Definition clamp_importance (importance : Z) : Z :=
  Z.max 1 (Z.min 10 importance).

(** Completion of a call: a returned value or a thrown [Error]. *)
Inductive completion (E A : Type) : Type :=
| Return (a : A)
| Throw (e : E).
Arguments Return {E A} a.
Arguments Throw {E A} e.

(** ** JavaScript objects used as maps

  The own string-keyed properties of an ordinary object, in the order of
  [OrdinaryOwnPropertyKeys]: array-index keys in ascending numeric order,
  then the other keys in the order they were created. *)

Module JsObject.

Definition N_to_string (n : N) : string :=
  NilEmpty.string_of_uint (N.to_uint n).

(** An array index is a canonical numeric string whose value is at most
  2^32 - 2. *)
Definition array_index (k : string) : option N :=
  match NilEmpty.uint_of_string k with
  | Some u =>
      let n := N.of_uint u in
      if (n <? 4294967295)%N && String.eqb (N_to_string n) k
      then Some n else None
  | None => None
  end.

(** Position of two keys in the enumeration order of own properties. *)
Definition key_before (k1 k2 : string) : Prop :=
  match array_index k1, array_index k2 with
  | Some a, Some b => (a < b)%N
  | Some _, None => True
  | None, Some _ => False
  | None, None => True
  end.

Section Obj.
Context {V : Type}.

(** [o[k]] for an own property *)
Fixpoint get (k : string) (o : list (string * V)) : option V :=
  match o with
  | [] => None
  | (k', v) :: o' => if String.eqb k k' then Some v else get k o'
  end.

Fixpoint replace (k : string) (v : V) (o : list (string * V))
  : list (string * V) :=
  match o with
  | [] => []
  | (k', v') :: o' =>
      if String.eqb k k' then (k', v) :: o' else (k', v') :: replace k v o'
  end.

Fixpoint insert_index (n : N) (k : string) (v : V)
  (o : list (string * V)) : list (string * V) :=
  match o with
  | [] => [(k, v)]
  | (k', v') :: o' =>
      match array_index k' with
      | Some n' =>
          if (n' <? n)%N then (k', v') :: insert_index n k v o'
          else (k, v) :: o
      | None => (k, v) :: o
      end
  end.

(** [o[k] = v] *)
Definition set (k : string) (v : V) (o : list (string * V))
  : list (string * V) :=
  match get k o with
  | Some _ => replace k v o
  | None =>
      match array_index k with
      | Some n => insert_index n k v o
      | None => o ++ [(k, v)]
      end
  end.

(** [delete o[k]] *)
Fixpoint remove (k : string) (o : list (string * V))
  : list (string * V) :=
  match o with
  | [] => []
  | (k', v) :: o' =>
      if String.eqb k k' then o' else (k', v) :: remove k o'
  end.

(** [Object.keys(o)] *)
Definition keys (o : list (string * V)) : list string := map fst o.

(** [JSON.parse] of the members of a JSON object, in textual order. *)
Definition parse (members : list (string * V)) : list (string * V) :=
  fold_left (fun o kv => set (fst kv) (snd kv) o) members [].

(** The invariant of the enumeration order: no key twice, array-index
    keys first and ascending. *)
Definition ordered (o : list (string * V)) : Prop :=
  List.NoDup (keys o) /\ StronglySorted key_before (keys o).

End Obj.

End JsObject.

(** ** The topic store (TopicMemoryManager) *)

Module TopicStore.

Record TopicMemory : Type := mkTopicMemory {
    content : string;
    tags : list string;
    importance : Z;
    timestamp : Z;
    lastModified : Z
  }.

(** [ProjectTopics]: the parsed project document. *)
Definition ProjectTopics : Type := list (string * TopicMemory).

Definition FIXED_TOPICS : list string :=
  [ "summary"; "libraries"; "change-history"; "architecture"; "todo";
    "bugs"; "features"; "documentation"; "testing"; "deployment" ].

(** What [<root>/<project>.json] holds: the members of a JSON object as
  written in the file, or bytes that [JSON.parse] rejects. *)
Inductive file : Type :=
  | Json (members : list (string * TopicMemory))
  | Unparsable.

Inductive error : Type :=
  | NotFound (topic project : string)
  | SaveFailed (project : string).

(** [loadProject]: a missing file and a failed read or parse both give
  the empty document. *)
Definition loadProject (fs : gmap string file) (projectName : string)
  : ProjectTopics :=
  match fs !! projectName with
  | Some (Json members) => JsObject.parse members
  | Some Unparsable => []
  | None => []
  end.

(** [saveProject]: [write_ok] tells whether [fs.writeFile] succeeds; a
  failed write throws and leaves the file as it was. *)
Definition saveProject (write_ok : bool) (fs : gmap string file)
  (projectName : string) (topics : ProjectTopics)
  : gmap string file * completion error unit :=
  if write_ok then (<[projectName := Json topics]> fs, Return tt)
  else (fs, Throw (SaveFailed projectName)).

(** [x?.timestamp || now] *)
Definition timestamp_or (existing : option TopicMemory) (now : Z) : Z :=
  match existing with
  | Some m => if timestamp m =? 0 then now else timestamp m
  | None => now
  end.

Definition storeTopicMemory (write_ok : bool) (now : Z)
  (fs : gmap string file)
  (projectName topic content : string) (tags : list string)
  (importance : Z) : gmap string file * completion error unit :=
  let topics := loadProject fs projectName in
  let topics' :=
    JsObject.set topic
      {| content := content;
         tags := tags;
         importance := clamp_importance importance;
         timestamp := timestamp_or (JsObject.get topic topics) now;
         lastModified := now |} topics in
  saveProject write_ok fs projectName topics'.

Definition getTopicMemory (fs : gmap string file)
  (projectName topic : string) : option TopicMemory :=
  JsObject.get topic (loadProject fs projectName).

Definition listTopics (fs : gmap string file) (projectName : string)
  : list string :=
  JsObject.keys (loadProject fs projectName).

Definition listAllTopicMemories (fs : gmap string file)
  (projectName : string) : ProjectTopics :=
  loadProject fs projectName.

(** *** Search *)

Record SearchResult : Type := mkSearchResult {
  topic : string;
  memory : TopicMemory;
  score : Z
}.

(** The body of the loop over [Object.entries(topics)]: the score of one
  entry against the lower-cased query. *)
Definition entry_score (queryLower topicName : string) (m : TopicMemory) : Z :=
  let contentLower := JsString.toLowerCase (content m) in
  let tagsLower := map JsString.toLowerCase (tags m) in
  let score0 := 0 in
  let score1 :=
    if JsString.includes contentLower queryLower then score0 + 3 else score0 in
  let score2 :=
    if existsb (fun tag => JsString.includes tag queryLower) tagsLower
    then score1 + 2 else score1 in
  let score3 :=
    if JsString.includes (JsString.toLowerCase topicName) queryLower
    then score2 + 1 else score2 in
  score3.

(** [results.push(...)] for the entries with a positive score. *)
Fixpoint collect_results (queryLower : string) (entries : ProjectTopics)
  : list SearchResult :=
  match entries with
  | [] => []
  | (topicName, m) :: rest =>
      let sc := entry_score queryLower topicName m in
      if sc >? 0
      then {| topic := topicName; memory := m; score := sc |}
             :: collect_results queryLower rest
      else collect_results queryLower rest
  end.

(** [(a, b) => b.score - a.score || b.memory.importance - a.memory.importance] *)
Definition compare_results (a b : SearchResult) : Z :=
  let d := score b - score a in
  if d =? 0 then importance (memory b) - importance (memory a) else d.

(** [Array.prototype.sort] is stable; with a consistent comparator its
  result is the stable sorted arrangement, computed here by insertion. *)
Fixpoint sort_insert {A : Type} (cmp : A -> A -> Z) (x : A) (l : list A)
  : list A :=
  match l with
  | [] => [x]
  | y :: l' => if cmp x y >? 0 then y :: sort_insert cmp x l' else x :: l
  end.

Definition array_sort {A : Type} (cmp : A -> A -> Z) (l : list A) : list A :=
  fold_right (sort_insert cmp) [] l.

(** [l.slice(0, limit)], a negative [limit] counting from the end. *)
Definition array_slice0 {A : Type} (l : list A) (limit : Z) : list A :=
  let len := Z.of_nat (length l) in
  let final := if limit <? 0 then Z.max (len + limit) 0 else Z.min limit len in
  firstn (Z.to_nat final) l.

(** The search before [slice]. *)
Definition rankTopicMemories (fs : gmap string file)
  (projectName query : string) : list SearchResult :=
  let topics := loadProject fs projectName in
  let queryLower := JsString.toLowerCase query in
  array_sort compare_results (collect_results queryLower topics).

Definition searchTopicMemories (fs : gmap string file)
  (projectName query : string) (limit : Z) : list SearchResult :=
  array_slice0 (rankTopicMemories fs projectName query) limit.

(** *** Update, delete, fixed topics *)

Definition updateTopicMemory (write_ok : bool) (now : Z)
  (fs : gmap string file) (projectName topic : string)
  (content : option string) (tags : option (list string))
  (importance : option Z) : gmap string file * completion error unit :=
  let topics := loadProject fs projectName in
  match JsObject.get topic topics with
  | None => (fs, Throw (NotFound topic projectName))
  | Some (mkTopicMemory old_content old_tags old_importance old_timestamp _) =>
      let topics' :=
        JsObject.set topic
          {| content := match content with Some c => c | None => old_content end;
             tags := match tags with Some t => t | None => old_tags end;
             importance :=
               match importance with
               | Some i => clamp_importance i
               | None => old_importance
               end;
             timestamp := old_timestamp;
             lastModified := now |} topics in
      saveProject write_ok fs projectName topics'
  end.

Definition deleteTopicMemory (write_ok : bool) (fs : gmap string file)
  (projectName topic : string) : gmap string file * completion error unit :=
  let topics := loadProject fs projectName in
  match JsObject.get topic topics with
  | Some _ => saveProject write_ok fs projectName (JsObject.remove topic topics)
  | None => (fs, Return tt)
  end.

Definition newline : string := String (ascii_of_nat 10) EmptyString.

(** The placeholder text; code unit 250 is the u-acute of the source. *)
Definition placeholder_content (topic : string) : string :=
  ("# " ++ JsString.capitalize topic ++ newline ++ newline
   ++ "Aguardando conte" ++ String (ascii_of_nat 250) "do...")%string.

Definition placeholder (now : Z) (topic : string) : TopicMemory :=
  {| content := placeholder_content topic;
     tags := ["fixed-topic"; topic];
     importance := 5;
     timestamp := now;
     lastModified := now |}.

(** One turn of [for (const topic of FIXED_TOPICS)]. *)
Definition init_topic (now : Z) (topics : ProjectTopics) (topic : string)
  : ProjectTopics :=
  match JsObject.get topic topics with
  | None => JsObject.set topic (placeholder now topic) topics
  | Some _ => topics
  end.

Definition initializeFixedTopics (write_ok : bool) (now : Z)
  (fs : gmap string file) (projectName : string)
  : gmap string file * completion error unit :=
  let topics := loadProject fs projectName in
  saveProject write_ok fs projectName
    (fold_left (init_topic now) FIXED_TOPICS topics).

(** *** Sequences of stores and the order of first insertion *)






(** *** The scoring rule in the words of the specification *)

(** Case-insensitive substring match. *)
Definition contains_ci (text query : string) : bool :=
  JsString.includes (JsString.toLowerCase text) (JsString.toLowerCase query).

(** 3 points for the content, 2 for any tag, 1 for the topic name. *)
Definition spec_score (query topicName : string) (m : TopicMemory) : Z :=
  (if contains_ci (content m) query then 3 else 0)
  + (if existsb (fun tag => contains_ci tag query) (tags m) then 2 else 0)
  + (if contains_ci topicName query then 1 else 0).

(** Every entry of the document with its points. *)
Definition scored_entries (query : string) (topics : ProjectTopics)
  : list SearchResult :=
  map (fun e => {| topic := fst e; memory := snd e;
                   score := spec_score query (fst e) (snd e) |}) topics.

(** Descending score, then descending importance. *)
Definition ranks_before (a b : SearchResult) : Prop :=
  score a > score b \/
  (score a = score b /\ importance (memory a) >= importance (memory b)).

(** The results that tie with score [s] and importance [i]. *)
Definition has_rank (s i : Z) (r : SearchResult) : bool :=
  (score r =? s) && (importance (memory r) =? i).

(** *** A project of the specification's scenarios *)

Definition bugs_record : TopicMemory :=
  {| content := "CPF validation rejects accents";
     tags := ["checkout"];
     importance := 9;
     timestamp := 10;
     lastModified := 20 |}.

(** The files after [store("shop", "bugs", ...)]. *)
Definition shop_files : gmap string file :=
  {[ "shop" := Json [("bugs", bugs_record)] ]}.

End TopicStore.

(** ** The topic store: project files, project information, runs *)

Module TopicProject.

(** [s.endsWith(suffix)] *)
Definition endsWith (s suffix : string) : bool :=
  let n := String.length s in
  let m := String.length suffix in
  (m <=? n)%nat && String.eqb (String.substring (n - m) m s) suffix.

Fixpoint drop_chars (n : nat) (s : string) : string :=
  match n, s with
  | O, _ => s
  | S n', String _ s' => drop_chars n' s'
  | S _, EmptyString => EmptyString
  end.

(** [s.replace(pattern, replacement)] with a string pattern: the first
    occurrence only. *)
Fixpoint replace_first (s pattern replacement : string) : string :=
  if JsString.startsWith s pattern
  then (replacement ++ drop_chars (String.length pattern) s)%string
  else
    match s with
    | EmptyString => EmptyString
    | String c s' => String c (replace_first s' pattern replacement)
    end.

(** The file name of [getProjectPath]: [`${projectName}.json`]. *)
Definition project_file_name (projectName : string) : string :=
  (projectName ++ ".json")%string.

(** [listProjects], on what [fs.readdir(this.memoryRoot)] gives: the file
    names, or an error, which is logged and gives the empty list. *)
Definition listProjects (readdir : completion string (list string))
  : list string :=
  match readdir with
  | Return files =>
      map (fun file => replace_first file ".json" "")
        (List.filter (fun file => endsWith file ".json") files)
  | Throw _ => []
  end.

Record ProjectInfo : Type := mkProjectInfo {
  name : string;
  createdAt : Z;
  lastModified : Z;
  topicCount : Z;
  memoryCount : Z;
  totalImportance : Z
}.

(** [getProjectInfo]; [now] is the value of [Date.now()]. *)
Definition getProjectInfo (now : Z) (fs : gmap string TopicStore.file)
  (projectName : string) : option ProjectInfo :=
  match fs !! projectName with
  | None => None
  | Some _ =>
      let topics := TopicStore.loadProject fs projectName in
      let memories := map snd topics in
      Some {| name := projectName;
              createdAt :=
                fold_right Z.min now (map TopicStore.timestamp memories);
              lastModified :=
                fold_right Z.max 0 (map TopicStore.lastModified memories);
              topicCount := Z.of_nat (length (JsObject.keys topics));
              memoryCount := Z.of_nat (length memories);
              totalImportance :=
                fold_left (fun sum m => sum + TopicStore.importance m)
                  memories 0 |}
  end.

Inductive reset_error : Type :=
| ResetFailed (project : string).

(** [resetProject]; [unlink_ok] tells whether [fs.unlink] succeeds. *)
Definition resetProject (unlink_ok : bool) (fs : gmap string TopicStore.file)
  (projectName : string)
  : gmap string TopicStore.file * completion reset_error unit :=
  match fs !! projectName with
  | Some _ =>
      if unlink_ok then (delete projectName fs, Return tt)
      else (fs, Throw (ResetFailed projectName))
  | None => (fs, Return tt)
  end.

(** *** Runs of one project *)







(** Every record of the project has its importance within 1..10. *)
Definition importance_in_range (fs : gmap string TopicStore.file)
  (projectName : string) : Prop :=
  forall t m,
    TopicStore.getTopicMemory fs projectName t = Some m ->
    1 <= TopicStore.importance m <= 10.



End TopicProject.

(** ** The memory store (MemoryManager)

    The store is the look-aside cache together with the memory directory.
    The directory is a map from id to the record held by [<id>.json]; a
    file that cannot be read or parsed is skipped by every read of the
    source and is left out.  The recency order and the ages kept by the
    LRU cache are not tracked: an entry may leave the cache at any time
    (see [evict]), which covers both the capacity and the age limit. *)

Module MemoryStore.

Record Memory : Type := mkMemory {
  id : string;
  content : string;
  tags : list string;
  timestamp : Z;
  importance : Z;
  projectContext : string
}.

Record store : Type := mkStore {
  cache : gmap string Memory;
  disk : gmap string Memory;
  projectName : string
}.

Inductive error : Type :=
| PersistFailed (memory_id : string).

(** [new MemoryManager()]: an empty cache over the directory as found. *)
Definition open_store (files : gmap string Memory) (name : string) : store :=
  {| cache := ∅; disk := files; projectName := name |}.

(** [this.cache.set(id, memory)] *)
Definition cache_set (st : store) (key : string) (m : Memory) : store :=
  {| cache := <[key := m]> (cache st);
     disk := disk st;
     projectName := projectName st |}.

(** [this.cache.delete(id)], also what an eviction does. *)
Definition cache_delete (st : store) (key : string) : store :=
  {| cache := delete key (cache st);
     disk := disk st;
     projectName := projectName st |}.


(** [persistMemory]: writes [<memory.id>.json]; [write_ok] tells whether
    [fs.writeFile] succeeds, a failed write throws. *)
Definition persistMemory (write_ok : bool) (st : store) (m : Memory)
  : store * completion error unit :=
  if write_ok then
    ({| cache := cache st;
        disk := <[id m := m]> (disk st);
        projectName := projectName st |}, Return tt)
  else (st, Throw (PersistFailed (id m))).

(** [storeMemory]; [new_id] is the value of [generateMemoryId()] and
    [now] that of [Date.now()]. *)
Definition storeMemory (write_ok : bool) (now : Z) (new_id : string)
  (st : store) (content : string) (tags : list string) (importance : Z)
  : store * completion error Memory :=
  let memory :=
    {| id := new_id;
       content := content;
       tags := tags;
       importance := clamp_importance importance;
       timestamp := now;
       projectContext := projectName st |} in
  let st1 := cache_set st new_id memory in
  match persistMemory write_ok st1 memory with
  | (st2, Return _) => (st2, Return memory)
  | (st2, Throw e) => (st2, Throw e)
  end.

Definition getMemory (st : store) (key : string) : store * option Memory :=
  match cache st !! key with
  | Some cached => (st, Some cached)
  | None =>
      match disk st !! key with
      | Some memory => (cache_set st key memory, Some memory)
      | None => (st, None)
      end
  end.

(** [updateMemory] assigns the fields of the object returned by
    [getMemory], which is the object held by the cache: the cache entry
    changes before the write to disk is attempted. *)
Definition updateMemory (write_ok : bool) (st : store) (key : string)
  (content : option string) (tags : option (list string))
  (importance : option Z) : store * completion error bool :=
  match getMemory st key with
  | (st1, None) => (st1, Return false)
  | (st1, Some (mkMemory m_id m_content m_tags m_timestamp m_importance m_ctx)) =>
      let memory :=
        {| id := m_id;
           content := match content with Some c => c | None => m_content end;
           tags := match tags with Some t => t | None => m_tags end;
           timestamp := m_timestamp;
           importance :=
             match importance with
             | Some i => clamp_importance i
             | None => m_importance
             end;
           projectContext := m_ctx |} in
      let st2 := cache_set st1 key memory in
      match persistMemory write_ok st2 memory with
      | (st3, Return _) => (st3, Return true)
      | (st3, Throw e) => (st3, Throw e)
      end
  end.

(** [deleteMemory]; [unlink_ok] tells whether [fs.unlink] succeeds, a
    failure is logged and reported as [false]. *)
Definition deleteMemory (unlink_ok : bool) (st : store) (key : string)
  : store * bool :=
  let st1 := cache_delete st key in
  match disk st1 !! key with
  | Some _ =>
      if unlink_ok then
        ({| cache := cache st1;
            disk := delete key (disk st1);
            projectName := projectName st1 |}, true)
      else (st1, false)
  | None => (st1, true)
  end.

(** [loadAllMemories]: the records of the directory, in the order
    [readdir] lists the files. *)
Definition loadAllMemories (st : store) : list Memory :=
  map snd (map_to_list (disk st)).

Definition cleanup_candidate (cutoffTime : Z) (memory : Memory) : bool :=
  (timestamp memory <? cutoffTime) && (importance memory <? 5).

(** One turn of [for (const memory of memories)]. *)
Definition cleanup_turn (unlink_ok : string -> bool) (cutoffTime : Z)
  (acc : store * Z) (memory : Memory) : store * Z :=
  let '(st, deletedCount) := acc in
  if cleanup_candidate cutoffTime memory then
    let '(st', deleted) := deleteMemory (unlink_ok (id memory)) st (id memory) in
    (st', if deleted then deletedCount + 1 else deletedCount)
  else (st, deletedCount).

(** [cleanupOldMemories]; [unlink_ok id] tells whether removing
    [<id>.json] succeeds. *)
Definition cleanupOldMemories (unlink_ok : string -> bool) (now : Z)
  (st : store) (maxAge : Z) : store * Z :=
  let memories := loadAllMemories st in
  let cutoffTime := now - maxAge in
  fold_left (cleanup_turn unlink_ok cutoffTime) memories (st, 0).

(** A record that the cleanup removes: old, of low importance, and with
    a file that can be unlinked. *)
Definition cleanup_removes (unlink_ok : string -> bool) (now maxAge : Z)
  (memory : Memory) : bool :=
  (timestamp memory <? now - maxAge) && (importance memory <? 5)
  && unlink_ok (id memory).

(** *** Runs of the store *)





(** The file [<id>.json] holds a record with that id. *)
Definition disk_wf (st : store) : Prop :=
  forall key m, disk st !! key = Some m -> id m = key.


(** The store of the cleanup scenario: at day 90, a memory aged 40 days
    with importance 3 and one aged 90 days with importance 7. *)
Definition day : Z := 24 * 60 * 60 * 1000.

Definition scenario_store : store :=
  {| cache := ∅;
     disk :=
       <["mem-old-minor" :=
           {| id := "mem-old-minor"; content := "draft"; tags := [];
              timestamp := 50 * day; importance := 3;
              projectContext := "shop" |}]>
       (<["mem-old-major" :=
           {| id := "mem-old-major"; content := "decision"; tags := [];
              timestamp := 0; importance := 7;
              projectContext := "shop" |}]> ∅);
     projectName := "shop" |}.

(** A directory in which the file [mem-x.json] holds a record whose id is
    [mem-y], as after a file was renamed by hand. *)
Definition misnamed_store : store :=
  open_store
    {[ "mem-x" :=
         {| id := "mem-y"; content := "old"; tags := [];
            timestamp := 0; importance := 3;
            projectContext := "shop" |} ]}
    "shop".

End MemoryStore.

(** ** The memory store: queries over all memories *)

Module MemoryQueries.
Import MemoryStore.

(** [(a, b) => b.importance - a.importance || b.timestamp - a.timestamp] *)
Definition by_importance_then_recency (a b : Memory) : Z :=
  let d := importance b - importance a in
  if d =? 0 then timestamp b - timestamp a else d.

(** [(a, b) => b.timestamp - a.timestamp] *)
Definition by_recency (a b : Memory) : Z := timestamp b - timestamp a.

(** [tags.some(tag => memory.tags.includes(tag))] *)
Definition shares_tag (wanted : list string) (memory : Memory) : bool :=
  existsb (fun tag => existsb (String.eqb tag) (tags memory)) wanted.

Definition getMemoriesByTags (st : store) (wanted : list string)
  : list Memory :=
  let allMemories := loadAllMemories st in
  TopicStore.array_sort by_importance_then_recency
    (List.filter (shares_tag wanted) allMemories).

Definition getRecentMemories (st : store) (limit : Z) : list Memory :=
  let allMemories := loadAllMemories st in
  TopicStore.array_slice0 (TopicStore.array_sort by_recency allMemories) limit.

(** The filter of [searchMemories]. *)
Definition search_match (lowerQuery : string) (wanted : option (list string))
  (memory : Memory) : bool :=
  let contentMatch :=
    JsString.includes (JsString.toLowerCase (content memory)) lowerQuery in
  let tagMatch :=
    existsb (fun tag => JsString.includes (JsString.toLowerCase tag) lowerQuery)
      (tags memory) in
  let tagFilter :=
    match wanted with
    | None => true
    | Some ts => (length ts =? 0)%nat || shares_tag ts memory
    end in
  (contentMatch || tagMatch) && tagFilter.

(** The search before [slice]. *)
Definition rankMemories (st : store) (query : string)
  (wanted : option (list string)) : list Memory :=
  let allMemories := loadAllMemories st in
  let lowerQuery := JsString.toLowerCase query in
  TopicStore.array_sort by_importance_then_recency
    (List.filter (search_match lowerQuery wanted) allMemories).

Definition searchMemories (st : store) (query : string)
  (wanted : option (list string)) (limit : Z) : list Memory :=
  TopicStore.array_slice0 (rankMemories st query wanted) limit.

(** The comparator of [listMemories]. *)
Definition list_order (sortBy : string) (a b : Memory) : Z :=
  if String.eqb sortBy "importance" then by_importance_then_recency a b
  else by_recency a b.

Definition listMemories (st : store) (wanted : option (list string))
  (limit : Z) (sortBy : string) : list Memory :=
  let allMemories := loadAllMemories st in
  let filtered :=
    match wanted with
    | Some ts =>
        if (0 <? length ts)%nat
        then List.filter (shares_tag ts) allMemories
        else allMemories
    | None => allMemories
    end in
  TopicStore.array_slice0 (TopicStore.array_sort (list_order sortBy) filtered)
    limit.

Record Statistics : Type := mkStatistics {
  totalMemories : Z;
  stat_projectName : string;
  memoryPath : string;
  oldestMemory : option Z;
  newestMemory : option Z
}.

(** [Math.min(...xs)] and [Math.max(...xs)] of a list that is not empty. *)
Definition list_min (x : Z) (xs : list Z) : Z := fold_right Z.min x xs.
Definition list_max (x : Z) (xs : list Z) : Z := fold_right Z.max x xs.

(** [getStatistics]; [memoryDir] is the directory of the store. *)
Definition getStatistics (memoryDir : string) (st : store) : Statistics :=
  let memories := loadAllMemories st in
  {| totalMemories := Z.of_nat (length memories);
     stat_projectName := projectName st;
     memoryPath := memoryDir;
     oldestMemory :=
       match map timestamp memories with
       | [] => None
       | t :: ts => Some (list_min t ts)
       end;
     newestMemory :=
       match map timestamp memories with
       | [] => None
       | t :: ts => Some (list_max t ts)
       end |}.

(** Descending importance, then descending timestamp. *)
Definition ranks_before (a b : Memory) : Prop :=
  importance a > importance b \/
  (importance a = importance b /\ timestamp a >= timestamp b).

End MemoryQueries.

(** ** Project detection (MemoryManager.detectProjectNameWithSource)

    Each detection method of the source is a [try] block whose [catch]
    returns a result without a name.  What the [try] block computes is read
    off the file system, the environment variables and the argument list;
    it is an input here, either a candidate or a thrown error, and the
    [catch] of each method is modelled on top of it. *)

Module Identity.

(** [{ name: string | null; source: string }] *)
Record candidate : Type := mkCandidate {
  cand_name : option string;
  cand_source : string
}.

(** [{ name: string; method: string; source: string }] *)
Record identity : Type := mkIdentity {
  name : string;
  method : string;
  source : string
}.

(** The outcome of a [try] block: its value or the thrown error message. *)
Definition attempt (A : Type) : Type := completion string A.

Record env : Type := mkEnv {
  (** [process.cwd()], which throws when the directory is gone *)
  cwd : attempt string;
  (** [os.homedir()] *)
  homedir : string;
  (** [path.basename] and [path.join] of the platform *)
  basename : string -> string;
  path_join : string -> string -> string;
  (** [existsSync] *)
  existsSync : string -> bool;
  (** the [try] blocks of the detection methods *)
  try_VSCodeActiveWorkspaceAdvanced : attempt candidate;
  try_UserSpecifiedProject : attempt candidate;
  try_ActiveVSCodeWorkspace : attempt candidate;
  try_PackageNameWithSource : attempt candidate;
  try_FromVSCodeConfig : attempt candidate;
  try_VSCodeWorkspaceFromParent : attempt candidate;
  try_VSCodeWorkspaceEnhanced : attempt candidate;
  try_VSCodeWorkspaceWithSource : attempt candidate;
  try_ProjectFromCommonPatterns : attempt candidate;
  try_WorkspaceViaCommands : attempt candidate;
  try_VSCodeWorkspaceFromSettings : attempt candidate
}.

Definition invalidNames : list string :=
  [ "src"; "dist"; "build"; "out"; "bin"; "lib";
    "node_modules"; "Users"; "Documents"; "Desktop";
    "Downloads"; "AppData"; "Program Files"; "Windows";
    "System32"; "temp"; "tmp"; "."; "..";
    "andre"; "user"; "admin"; "home"; "root"; "dev";
    "microsoft-vs-code"; "vs-code"; "vscode"; "code";
    "visual-studio-code"; "microsoft"; "electron";
    "extensions"; "extension"; "crash"; "crashes";
    "logs"; "log"; "cache"; "caches" ].

Definition forbiddenPatterns : list string :=
  [ "microsoft"; "vs-code"; "vscode"; "visual-studio";
    "electron"; "extension"; "crash"; "log"; "cache";
    "user"; "admin"; "system"; "windows"; "appdata" ].

Definition is_lower_letter (c : ascii) : bool :=
  let n := N_of_ascii c in ((97 <=? n) && (n <=? 122))%N.

Definition is_digit (c : ascii) : bool :=
  let n := N_of_ascii c in ((48 <=? n) && (n <=? 57))%N.

(** [/^[a-z]$/.test(s)] *)
Definition single_letter (s : string) : bool :=
  match s with
  | String c EmptyString => is_lower_letter c
  | _ => false
  end.

(** [/^(c|d|...|z)$/.test(s)] *)
Definition drive_letter (s : string) : bool :=
  match s with
  | String c EmptyString =>
      let n := N_of_ascii c in ((99 <=? n) && (n <=? 122))%N
  | _ => false
  end.

Definition isValidProjectName (name : string) : bool :=
  if (String.length name <? 2)%nat then false
  else
    let lowerName := JsString.toLowerCase name in
    if existsb (fun pattern => JsString.includes lowerName pattern)
         forbiddenPatterns
    then false
    else negb (existsb (String.eqb lowerName) invalidNames)
         && negb (single_letter lowerName)
         && negb (drive_letter lowerName).

Definition dash : ascii := "-"%char.

(** [.replace(/[^a-z0-9\-_]/g, '-')] *)
Fixpoint replace_unsafe (s : string) : string :=
  match s with
  | EmptyString => EmptyString
  | String c s' =>
      String (if is_lower_letter c || is_digit c || Ascii.eqb c dash
                 || Ascii.eqb c "_"%char then c else dash)
             (replace_unsafe s')
  end.

Fixpoint drop_leading_dashes (s : string) : string :=
  match s with
  | String c s' => if Ascii.eqb c dash then drop_leading_dashes s' else s
  | EmptyString => EmptyString
  end.

Fixpoint drop_trailing_dashes (s : string) : string :=
  match s with
  | EmptyString => EmptyString
  | String c s' =>
      match drop_trailing_dashes s' with
      | EmptyString => if Ascii.eqb c dash then EmptyString
                       else String c EmptyString
      | r => String c r
      end
  end.

(** [.replace(/^(-+)|(-+)$/g, '')] *)
Definition trim_dashes (s : string) : string :=
  drop_trailing_dashes (drop_leading_dashes s).

(** [.replace(/-+/g, '-')] *)
Fixpoint collapse_dashes (s : string) : string :=
  match s with
  | EmptyString => EmptyString
  | String c s' =>
      if Ascii.eqb c dash then
        match s' with
        | String c' _ =>
            if Ascii.eqb c' dash then collapse_dashes s'
            else String c (collapse_dashes s')
        | EmptyString => String c EmptyString
        end
      else String c (collapse_dashes s')
  end.

Definition sanitizeProjectName (name : string) : string :=
  let r :=
    String.substring 0 50
      (collapse_dashes (trim_dashes
         (replace_unsafe (JsString.toLowerCase name)))) in
  match r with
  | EmptyString => "project"
  | _ => r
  end.

Definition project_indicators : list string :=
  [ "package.json"; ".git"; "tsconfig.json"; "pyproject.toml"; "Cargo.toml";
    ".vscode"; "src"; "README.md"; "yarn.lock"; "pnpm-lock.yaml";
    "composer.json"; "go.mod"; "requirements.txt" ].

Definition hasProjectIndicators (e : env) (dirPath : string) : bool :=
  existsb (fun f => existsSync e (path_join e dirPath f)) project_indicators.

Definition blockedPaths : list string :=
  [ "appdata"; "microsoft"; "vs-code"; "vscode"; "visual-studio";
    "electron"; "extension"; "extensions"; "crash"; "crashes";
    "logs"; "log"; "cache"; "caches"; "temp"; "tmp";
    "program files"; "windows"; "system32"; "users\andre";
    "users\user"; "users\admin" ].

Definition isSystemOrVSCodePath (dirPath : string) : bool :=
  let lowerPath := JsString.toLowerCase dirPath in
  existsb (fun blocked => JsString.includes lowerPath blocked) blockedPaths.

(** [try { ... } catch (error) { return { name: null, source: ... } }] *)
Definition recovered (body : attempt candidate) (on_error : string -> string)
  : candidate :=
  match body with
  | Return c => c
  | Throw msg => {| cand_name := None; cand_source := on_error msg |}
  end.

Definition detectVSCodeActiveWorkspaceAdvanced (e : env) : candidate :=
  recovered (try_VSCodeActiveWorkspaceAdvanced e)
    (fun msg => "advanced-detection-error: " ++ msg)%string.

Definition detectUserSpecifiedProject (e : env) : candidate :=
  recovered (try_UserSpecifiedProject e)
    (fun msg => "user-config-error: " ++ msg)%string.

Definition detectActiveVSCodeWorkspace (e : env) : candidate :=
  recovered (try_ActiveVSCodeWorkspace e)
    (fun msg => "active-workspace-detection-error: " ++ msg)%string.

Definition detectPackageNameWithSource (e : env) : candidate :=
  recovered (try_PackageNameWithSource e)
    (fun _ => "package.json read error").

Definition detectFromVSCodeConfig (e : env) : candidate :=
  recovered (try_FromVSCodeConfig e)
    (fun msg => "vscode-config-error: " ++ msg)%string.

Definition detectVSCodeWorkspaceFromParent (e : env) : candidate :=
  recovered (try_VSCodeWorkspaceFromParent e)
    (fun msg => "parent-detection-error: " ++ msg)%string.

Definition detectVSCodeWorkspaceEnhanced (e : env) : candidate :=
  recovered (try_VSCodeWorkspaceEnhanced e)
    (fun msg => "enhanced-detection-error: " ++ msg)%string.

Definition detectVSCodeWorkspaceWithSource (e : env) : candidate :=
  recovered (try_VSCodeWorkspaceWithSource e)
    (fun _ => "detection-error").

Definition detectProjectFromCommonPatterns (e : env) : candidate :=
  recovered (try_ProjectFromCommonPatterns e)
    (fun msg => "pattern-detection-error: " ++ msg)%string.

Definition detectWorkspaceViaCommands (e : env) : candidate :=
  recovered (try_WorkspaceViaCommands e)
    (fun msg => "command-detection-error: " ++ msg)%string.

Definition detectVSCodeWorkspaceFromSettings (e : env) : candidate :=
  recovered (try_VSCodeWorkspaceFromSettings e)
    (fun msg => "vs-code-settings-error: " ++ msg)%string.

(** [result.name && this.isValidProjectName(result.name)] *)
Definition usable (c : candidate) : option string :=
  match cand_name c with
  | Some n =>
      if negb (String.eqb n "") && isValidProjectName n then Some n else None
  | None => None
  end.

(** [if (result.name && isValid(result.name) && extra) return {...}],
    otherwise the rest of the method. *)
Definition accept (c : candidate) (extra : string -> bool) (method : string)
  (rest : attempt identity) : attempt identity :=
  match usable c with
  | Some n =>
      if extra n then
        Return {| name := sanitizeProjectName n;
                  method := method;
                  source := cand_source c |}
      else rest
  | None => rest
  end.

Definition any_name (_ : string) : bool := true.

(** [name !== 'microsoft-vs-code' && name !== 'andre' && name !== 'user'] *)
Definition not_editor_name (n : string) : bool :=
  negb (String.eqb n "microsoft-vs-code") && negb (String.eqb n "andre")
  && negb (String.eqb n "user").

(** The last step: the directory name when valid, else the default. *)
Definition fallback_identity (dirName : string) : identity :=
  let fallbackName :=
    if negb (String.eqb dirName "") && isValidProjectName dirName
    then dirName else "unknown-project" in
  {| name := sanitizeProjectName fallbackName;
     method := "Fallback";
     source := "directory-basename-fallback" |}.

(** The test of the directory-name step. *)
Definition directory_name_usable (e : env) (currentDir : string) : bool :=
  isValidProjectName (basename e currentDir)
  && negb (String.eqb currentDir (homedir e))
  && negb (isSystemOrVSCodePath currentDir)
  && hasProjectIndicators e currentDir.

(** The steps after the first four methods, once [process.cwd()] is known. *)
Definition cascade_from_cwd (e : env) (currentDir : string) : attempt identity :=
  let dirName := basename e currentDir in
  if directory_name_usable e currentDir
  then Return {| name := sanitizeProjectName dirName;
                 method := "Directory Name";
                 source := currentDir |}
  else
  accept (detectFromVSCodeConfig e) any_name "VS Code Config Search" (
  accept (detectVSCodeWorkspaceFromParent e) any_name "VS Code NPX Context" (
  accept (detectVSCodeWorkspaceEnhanced e) not_editor_name
    "Enhanced VS Code Detection" (
  accept (detectVSCodeWorkspaceWithSource e) not_editor_name
    "VS Code Workspace" (
  (if String.eqb currentDir (homedir e) || isSystemOrVSCodePath currentDir
   then accept (detectProjectFromCommonPatterns e) any_name
          "Smart Pattern Detection"
   else fun rest => rest) (
  accept (detectWorkspaceViaCommands e) any_name "Command Detection" (
  accept (detectVSCodeWorkspaceFromSettings e) any_name
    "VS Code Recent Workspace" (
  accept (detectActiveVSCodeWorkspace e) any_name
    "Active VS Code Workspace Detection" (
  Return (fallback_identity dirName))))))))).

(** The body of the outer [try] of [detectProjectNameWithSource]. *)
Definition cascade (e : env) : attempt identity :=
  accept (detectVSCodeActiveWorkspaceAdvanced e) any_name
    "VS Code Active Workspace Detection" (
  accept (detectUserSpecifiedProject e) any_name "User Configuration" (
  accept (detectActiveVSCodeWorkspace e) any_name "Active VS Code Workspace" (
  accept (detectPackageNameWithSource e) any_name "Package.json" (
  match cwd e with
  | Return currentDir => cascade_from_cwd e currentDir
  | Throw msg => Throw msg
  end)))).

Definition error_fallback : identity :=
  {| name := "unknown-project";
     method := "Error Fallback";
     source := "error-recovery" |}.

(** [detectProjectNameWithSource]: the outer [catch] turns any error that
    escapes into the error fallback. *)
Definition detectProjectNameWithSource (e : env) : identity :=
  match cascade e with
  | Return r => r
  | Throw _ => error_fallback
  end.

(** A detection method that threw, seen as one that found nothing. *)
Definition quiet (body : attempt candidate) : attempt candidate :=
  match body with
  | Return c => Return c
  | Throw _ => Return {| cand_name := None; cand_source := "not-detected" |}
  end.

(** The environment in which every method that throws finds nothing
    instead. *)
Definition quiet_env (e : env) : env :=
  {| cwd := cwd e;
     homedir := homedir e;
     basename := basename e;
     path_join := path_join e;
     existsSync := existsSync e;
     try_VSCodeActiveWorkspaceAdvanced := quiet (try_VSCodeActiveWorkspaceAdvanced e);
     try_UserSpecifiedProject := quiet (try_UserSpecifiedProject e);
     try_ActiveVSCodeWorkspace := quiet (try_ActiveVSCodeWorkspace e);
     try_PackageNameWithSource := quiet (try_PackageNameWithSource e);
     try_FromVSCodeConfig := quiet (try_FromVSCodeConfig e);
     try_VSCodeWorkspaceFromParent := quiet (try_VSCodeWorkspaceFromParent e);
     try_VSCodeWorkspaceEnhanced := quiet (try_VSCodeWorkspaceEnhanced e);
     try_VSCodeWorkspaceWithSource := quiet (try_VSCodeWorkspaceWithSource e);
     try_ProjectFromCommonPatterns := quiet (try_ProjectFromCommonPatterns e);
     try_WorkspaceViaCommands := quiet (try_WorkspaceViaCommands e);
     try_VSCodeWorkspaceFromSettings := quiet (try_VSCodeWorkspaceFromSettings e) |}.

(** The detection methods of the cascade, as called. *)
Definition methods (e : env) : list candidate :=
  [ detectVSCodeActiveWorkspaceAdvanced e; detectUserSpecifiedProject e;
    detectActiveVSCodeWorkspace e; detectPackageNameWithSource e;
    detectFromVSCodeConfig e; detectVSCodeWorkspaceFromParent e;
    detectVSCodeWorkspaceEnhanced e; detectVSCodeWorkspaceWithSource e;
    detectProjectFromCommonPatterns e; detectWorkspaceViaCommands e;
    detectVSCodeWorkspaceFromSettings e ].

(** The results that are not the error fallback. *)
Definition regular (a : attempt identity) : Prop :=
  forall r, a = Return r -> method r <> "Error Fallback".

(** The identity of the directory-name step. *)
Definition directory_identity (e : env) (currentDir : string) : identity :=
  {| name := sanitizeProjectName (basename e currentDir);
     method := "Directory Name";
     source := currentDir |}.

(** An environment in which every detection method throws, the working
    directory has a valid name and no project marker. *)
Definition failing_env : env :=
  {| cwd := Return "/work/billing";
     homedir := "/home/dev";
     basename := fun p => if String.eqb p "/work/billing" then "billing" else p;
     path_join := fun d f => (d ++ "/" ++ f)%string;
     existsSync := fun _ => false;
     try_VSCodeActiveWorkspaceAdvanced := Throw "EACCES";
     try_UserSpecifiedProject := Throw "EACCES";
     try_ActiveVSCodeWorkspace := Throw "EACCES";
     try_PackageNameWithSource := Throw "EACCES";
     try_FromVSCodeConfig := Throw "EACCES";
     try_VSCodeWorkspaceFromParent := Throw "EACCES";
     try_VSCodeWorkspaceEnhanced := Throw "EACCES";
     try_VSCodeWorkspaceWithSource := Throw "EACCES";
     try_ProjectFromCommonPatterns := Throw "EACCES";
     try_WorkspaceViaCommands := Throw "EACCES";
     try_VSCodeWorkspaceFromSettings := Throw "EACCES" |}.

End Identity.

(** ** Project detection: two detection methods in full *)

Module IdentityMethods.
Import Identity.

(** [name && this.isValidProjectName(name)] *)
Definition valid_candidate_name (n : string) : bool :=
  negb (String.eqb n "") && isValidProjectName n.

(** The folder test shared by the environment variables of
    [detectVSCodeWorkspaceWithSource]. *)
Definition project_folder (e : env) (folder : string) : bool :=
  negb (String.eqb folder "")
  && negb (String.eqb folder (homedir e))
  && hasProjectIndicators e folder
  && negb (isSystemOrVSCodePath folder).

Definition not_detected : candidate :=
  {| cand_name := None; cand_source := "not-detected" |}.

(** The check of the terminal context, the last of the method. *)
Definition terminal_context (e : env) (getenv : string -> option string)
  : attempt candidate :=
  match getenv "TERM_PROGRAM" with
  | Some term =>
      if String.eqb term "vscode" then
        match cwd e with
        | Throw msg => Throw msg
        | Return dir =>
            if negb (String.eqb dir (homedir e))
               && hasProjectIndicators e dir
               && negb (isSystemOrVSCodePath dir)
               && isValidProjectName (basename e dir)
            then Return
                   {| cand_name := Some (basename e dir);
                      cand_source :=
                        "VS Code terminal context with project indicators" |}
            else Return not_detected
        end
      else Return not_detected
  | None => Return not_detected
  end.

(** One folder variable: its base name when the folder is a project
    folder with a valid name, else the rest of the method. *)
Definition folder_variable (e : env) (value : option string)
  (source : string) (rest : attempt candidate) : attempt candidate :=
  match value with
  | Some folder =>
      if project_folder e folder && isValidProjectName (basename e folder)
      then Return {| cand_name := Some (basename e folder);
                     cand_source := source |}
      else rest
  | None => rest
  end.

(** The [try] block of [detectVSCodeWorkspaceWithSource]; [getenv] reads
    [process.env]. *)
Definition try_workspace_variables (e : env)
  (getenv : string -> option string) : attempt candidate :=
  match getenv "VSCODE_WORKSPACE_NAME" with
  | Some workspaceName =>
      if valid_candidate_name workspaceName
      then Return {| cand_name := Some workspaceName;
                     cand_source := "VSCODE_WORKSPACE_NAME env var" |}
      else
        folder_variable e (getenv "VSCODE_WORKSPACE_FOLDER")
          "VSCODE_WORKSPACE_FOLDER env var"
          (folder_variable e (getenv "VSCODE_CWD") "VSCODE_CWD env var"
             (terminal_context e getenv))
  | None =>
      folder_variable e (getenv "VSCODE_WORKSPACE_FOLDER")
        "VSCODE_WORKSPACE_FOLDER env var"
        (folder_variable e (getenv "VSCODE_CWD") "VSCODE_CWD env var"
           (terminal_context e getenv))
  end.

(** The method with its [catch]. *)
Definition workspace_variables (e : env) (getenv : string -> option string)
  : candidate :=
  recovered (try_workspace_variables e getenv) (fun _ => "detection-error").





(** The characters that [sanitizeProjectName] lets through. *)
Definition safe_char (c : ascii) : bool :=
  is_lower_letter c || is_digit c || Ascii.eqb c dash || Ascii.eqb c "_"%char.

Fixpoint all_chars (P : ascii -> bool) (s : string) : bool :=
  match s with
  | EmptyString => true
  | String c s' => P c && all_chars P s'
  end.

(** No two dashes in a row. *)
Fixpoint no_double_dash (s : string) : bool :=
  match s with
  | String c ((String c' _) as s') =>
      negb (Ascii.eqb c dash && Ascii.eqb c' dash) && no_double_dash s'
  | _ => true
  end.

Definition starts_with_dash (s : string) : bool :=
  match s with
  | String c _ => Ascii.eqb c dash
  | EmptyString => false
  end.

(** What the data model asks of a project name: one to 50 characters
    out of a-z, 0-9, dash and underscore. *)
Definition safe_name (s : string) : Prop :=
  (1 <= String.length s <= 50)%nat /\ all_chars safe_char s = true.

Fixpoint ends_with_dash (s : string) : bool :=
  match s with
  | EmptyString => false
  | String c EmptyString => Ascii.eqb c dash
  | String _ s' => ends_with_dash s'
  end.

(** A safe name without a dash in front and without two dashes in a
    row. *)
Definition well_formed_name (s : string) : Prop :=
  safe_name s /\ starts_with_dash s = false /\ no_double_dash s = true.

(** The entries of [invalidNames] that are in lower case, have two
    characters or more and contain none of the forbidden patterns. *)
Definition deciding_names : list string :=
  [ "src"; "dist"; "build"; "out"; "bin"; "lib"; "node_modules";
    "temp"; "tmp"; ".."; "andre"; "home"; "root"; "dev"; "code" ].

(** The values of [method] that the returns of
    [detectProjectNameWithSource] carry. *)
Definition method_names : list string :=
  [ "VS Code Active Workspace Detection"; "User Configuration";
    "Active VS Code Workspace"; "Package.json"; "Directory Name";
    "VS Code Config Search"; "VS Code NPX Context";
    "Enhanced VS Code Detection"; "VS Code Workspace";
    "Smart Pattern Detection"; "Command Detection";
    "VS Code Recent Workspace"; "Active VS Code Workspace Detection";
    "Fallback"; "Error Fallback" ].

(** An environment in which every detection method throws, with the
    working directory [dir] of base name [base]; [markers] tells whether
    the files looked for exist. *)
Definition example_env (dir base : string) (markers : bool) : env :=
  {| cwd := Return dir;
     homedir := "/home/dev";
     basename := fun p => if String.eqb p dir then base else p;
     path_join := fun d f => (d ++ "/" ++ f)%string;
     existsSync := fun _ => markers;
     try_VSCodeActiveWorkspaceAdvanced := Throw "EACCES";
     try_UserSpecifiedProject := Throw "EACCES";
     try_ActiveVSCodeWorkspace := Throw "EACCES";
     try_PackageNameWithSource := Throw "EACCES";
     try_FromVSCodeConfig := Throw "EACCES";
     try_VSCodeWorkspaceFromParent := Throw "EACCES";
     try_VSCodeWorkspaceEnhanced := Throw "EACCES";
     try_VSCodeWorkspaceWithSource := Throw "EACCES";
     try_ProjectFromCommonPatterns := Throw "EACCES";
     try_WorkspaceViaCommands := Throw "EACCES";
     try_VSCodeWorkspaceFromSettings := Throw "EACCES" |}.

(** A process environment that only sets [VSCODE_WORKSPACE_NAME]. *)
Definition workspace_name_only (value : string) (key : string)
  : option string :=
  if String.eqb key "VSCODE_WORKSPACE_NAME" then Some value else None.

End IdentityMethods.

(** ** The tool handlers of the topic server

    The [switch] of the request handler for the tools that store, update,
    delete, search and reset, with the [try]/[catch] around it: a thrown
    error becomes a response with [isError]. *)

Module TopicTools.

Record response : Type := mkResponse {
  text : string;
  isError : bool
}.

Definition o_acute : string := String (ascii_of_nat 243) EmptyString.

(** [error.message] of the errors the topic store throws. *)
Definition error_message (err : TopicStore.error) : string :=
  match err with
  | TopicStore.NotFound topic project =>
      ("Topic '" ++ topic ++ "' not found in project '" ++ project ++ "'")%string
  | TopicStore.SaveFailed project =>
      ("Failed to save project: " ++ project)%string
  end.

Definition reset_error_message (err : TopicProject.reset_error) : string :=
  match err with
  | TopicProject.ResetFailed project =>
      ("Failed to reset project: " ++ project)%string
  end.

(** The [catch] of the handler. *)
Definition error_response (tool message : string) : response :=
  {| text := ("Erro ao executar " ++ tool ++ ": " ++ message)%string;
     isError := true |}.

Definition ok_response (t : string) : response :=
  {| text := t; isError := false |}.

(** [args.tags || []] *)
Definition tags_or_empty (tags : option (list string)) : list string :=
  match tags with
  | Some t => t
  | None => []
  end.

(** [args.importance || 5] and [args.limit || 100] *)
Definition number_or (n : option Z) (default : Z) : Z :=
  match n with
  | Some v => if v =? 0 then default else v
  | None => default
  end.

(** [case 'store-topic-memory'] *)
Definition tool_store (write_ok : bool) (now : Z)
  (fs : gmap string TopicStore.file) (projectName topic content : string)
  (tags : option (list string)) (importance : option Z)
  : gmap string TopicStore.file * response :=
  match TopicStore.storeTopicMemory write_ok now fs projectName topic content
          (tags_or_empty tags) (number_or importance 5) with
  | (fs', Return _) =>
      (fs', ok_response
              ("Mem" ++ o_acute ++ "ria armazenada no t" ++ o_acute
               ++ "pico '" ++ topic ++ "' do projeto '" ++ projectName ++ "'"))
  | (fs', Throw err) =>
      (fs', error_response "store-topic-memory" (error_message err))
  end.

(** [case 'update-topic-memory'] *)
Definition tool_update (write_ok : bool) (now : Z)
  (fs : gmap string TopicStore.file) (projectName topic : string)
  (content : option string) (tags : option (list string))
  (importance : option Z) : gmap string TopicStore.file * response :=
  match TopicStore.updateTopicMemory write_ok now fs projectName topic content
          tags importance with
  | (fs', Return _) =>
      (fs', ok_response
              ("T" ++ o_acute ++ "pico '" ++ topic
               ++ "' atualizado no projeto '" ++ projectName ++ "'"))
  | (fs', Throw err) =>
      (fs', error_response "update-topic-memory" (error_message err))
  end.

(** [case 'delete-topic-memory'] *)
Definition tool_delete (write_ok : bool) (fs : gmap string TopicStore.file)
  (projectName topic : string) : gmap string TopicStore.file * response :=
  match TopicStore.deleteTopicMemory write_ok fs projectName topic with
  | (fs', Return _) =>
      (fs', ok_response
              ("T" ++ o_acute ++ "pico '" ++ topic
               ++ "' removido do projeto '" ++ projectName ++ "'"))
  | (fs', Throw err) =>
      (fs', error_response "delete-topic-memory" (error_message err))
  end.

(** [case 'reset-project'] *)
Definition tool_reset (unlink_ok : bool) (fs : gmap string TopicStore.file)
  (projectName : string) (confirmReset : bool)
  : gmap string TopicStore.file * response :=
  if negb confirmReset then
    (fs, ok_response
           "Reset cancelado. Para confirmar, defina confirmReset como true.")
  else
    match TopicProject.resetProject unlink_ok fs projectName with
    | (fs', Return _) =>
        (fs', ok_response
                ("Projeto '" ++ projectName ++ "' resetado com sucesso"))
    | (fs', Throw err) =>
        (fs', error_response "reset-project" (reset_error_message err))
    end.

(** The results handed to the text of [case 'search-topic-memories']. *)
Definition tool_search_results (fs : gmap string TopicStore.file)
  (projectName query : string) (limit : option Z)
  : list TopicStore.SearchResult :=
  TopicStore.searchTopicMemories fs projectName query (number_or limit 100).

End TopicTools.

(** ** Properties of the string model *)

Module JsStringFacts.
Import JsString.

Lemma startsWith_spec s q :
  startsWith s q = true <-> exists rest, s = (q ++ rest)%string.
Proof.
  revert s. induction q as [|a q IH]; intros s; simpl.
  - split; [intros _; now exists s|intros _; now destruct s].
  - destruct s as [|b s]; simpl.
    + split; [discriminate|]. intros [rest H]. discriminate.
    + rewrite andb_true_iff, IH. split.
      * intros [Hab [rest ->]]. apply Ascii.eqb_eq in Hab. subst.
        now exists rest.
      * intros [rest [= -> ->]]. split; [apply Ascii.eqb_refl|now exists rest].
Qed.

Lemma includes_nil q : includes "" q = startsWith "" q.
Proof. simpl. apply orb_false_r. Qed.

Lemma includes_cons c s q :
  includes (String c s) q = startsWith (String c s) q || includes s q.
Proof. reflexivity. Qed.

(** [includes] is the substring test. *)
Lemma includes_spec s q :
  includes s q = true <-> exists pre post, s = (pre ++ q ++ post)%string.
Proof.
  induction s as [|c s IH].
  - rewrite includes_nil, startsWith_spec. split.
    + intros [rest H]. now exists ""%string, rest.
    + intros [pre [post H]]. destruct pre; [now exists post|discriminate].
  - rewrite includes_cons, orb_true_iff, startsWith_spec, IH. split.
    + intros [[rest H]|[pre [post H]]].
      * now exists ""%string, rest.
      * exists (String c pre), post. simpl. now rewrite H.
    + intros [pre [post H]]. destruct pre as [|c' pre]; simpl in H.
      * left. now exists post.
      * right. injection H as -> H. now exists pre, post.
Qed.

Lemma toLowerCase_length s : String.length (toLowerCase s) = String.length s.
Proof. induction s as [|c s IH]; simpl; [reflexivity|now rewrite IH]. Qed.

End JsStringFacts.

(** ** Properties of the object model *)

Module JsObjectFacts.
Import JsObject.

Lemma array_index_canonical k n :
  array_index k = Some n -> k = N_to_string n.
Proof.
  unfold array_index.
  destruct (NilEmpty.uint_of_string k) as [u|]; [|discriminate].
  destruct (N.of_uint u <? 4294967295)%N; simpl; [|discriminate].
  destruct (String.eqb (N_to_string (N.of_uint u)) k) eqn:E; [|discriminate].
  intros [= <-]. symmetry. now apply String.eqb_eq.
Qed.

Lemma array_index_inj k1 k2 n :
  array_index k1 = Some n -> array_index k2 = Some n -> k1 = k2.
Proof.
  intros H1 H2. apply array_index_canonical in H1, H2. congruence.
Qed.

Section WithValues.
Context {V : Type}.
Implicit Types (o : list (string * V)) (k : string) (v : V).

Lemma get_None_notin k o : get k o = None <-> ~ In k (keys o).
Proof.
  induction o as [|[k' v'] o IH]; simpl; [tauto|].
  destruct (String.eqb k k') eqn:E.
  - apply String.eqb_eq in E. subst. split; [discriminate|tauto].
  - apply String.eqb_neq in E. rewrite IH. split.
    + intros H [H'|H']; [congruence|tauto].
    + tauto.
Qed.

Lemma get_Some_in k o v : get k o = Some v -> In (k, v) o.
Proof.
  induction o as [|[k' v'] o IH]; simpl; [discriminate|].
  destruct (String.eqb k k') eqn:E.
  - apply String.eqb_eq in E. intros [= ->]. subst. now left.
  - intros H. right. now apply IH.
Qed.

Lemma get_in_nodup k v o :
  List.NoDup (keys o) -> In (k, v) o -> get k o = Some v.
Proof.
  induction o as [|[k' v'] o IH]; simpl; [tauto|].
  intros Hnd [H|H].
  - injection H as -> ->. now rewrite String.eqb_refl.
  - inversion Hnd as [|? ? Hk Hnd']; subst.
    destruct (String.eqb k k') eqn:E.
    + apply String.eqb_eq in E. subst. exfalso. apply Hk.
      unfold keys. change k' with (fst (k', v)). now apply in_map.
    + now apply IH.
Qed.

Lemma get_replace_eq k v o :
  get k (replace k v o) = match get k o with Some _ => Some v | None => None end.
Proof.
  induction o as [|[k' v'] o IH]; simpl; [reflexivity|].
  destruct (String.eqb k k') eqn:E; simpl; now rewrite E.
Qed.

Lemma get_replace_ne k k0 v o :
  k0 <> k -> get k0 (replace k v o) = get k0 o.
Proof.
  intros Hne. induction o as [|[k' v'] o IH]; simpl; [reflexivity|].
  destruct (String.eqb k k') eqn:E; simpl.
  - apply String.eqb_eq in E. subst k'.
    apply String.eqb_neq in Hne. now rewrite Hne.
  - now rewrite IH.
Qed.

Lemma keys_replace k v o : keys (replace k v o) = keys o.
Proof.
  induction o as [|[k' v'] o IH]; simpl; [reflexivity|].
  destruct (String.eqb k k'); simpl; [reflexivity|]. now f_equal.
Qed.

Lemma get_insert_index_eq n k v o :
  get k o = None -> get k (insert_index n k v o) = Some v.
Proof.
  induction o as [|[k' v'] o IH]; simpl.
  - now rewrite String.eqb_refl.
  - destruct (String.eqb k k') eqn:E; [discriminate|]. intros H.
    destruct (array_index k') as [n'|]; simpl.
    + destruct (n' <? n)%N; simpl.
      * rewrite E. now apply IH.
      * now rewrite String.eqb_refl.
    + now rewrite String.eqb_refl.
Qed.

Lemma get_insert_index_ne n k k0 v o :
  k0 <> k -> get k0 (insert_index n k v o) = get k0 o.
Proof.
  intros Hne. apply String.eqb_neq in Hne.
  induction o as [|[k' v'] o IH]; simpl.
  - now rewrite Hne.
  - destruct (array_index k') as [n'|]; simpl.
    + destruct (n' <? n)%N; simpl.
      * now rewrite IH.
      * now rewrite Hne.
    + now rewrite Hne.
Qed.

Lemma get_app_ne k0 k v o :
  k0 <> k -> get k0 (o ++ [(k, v)]) = get k0 o.
Proof.
  intros Hne. apply String.eqb_neq in Hne.
  induction o as [|[k' v'] o IH]; simpl.
  - now rewrite Hne.
  - now rewrite IH.
Qed.

Lemma get_app_eq k v o :
  get k o = None -> get k (o ++ [(k, v)]) = Some v.
Proof.
  induction o as [|[k' v'] o IH]; simpl.
  - now rewrite String.eqb_refl.
  - destruct (String.eqb k k'); [discriminate|]. exact IH.
Qed.

(** Reading back the property just written. *)
Lemma get_set_eq k v o : get k (set k v o) = Some v.
Proof.
  unfold set. destruct (get k o) eqn:E.
  - now rewrite get_replace_eq, E.
  - destruct (array_index k).
    + now apply get_insert_index_eq.
    + now apply get_app_eq.
Qed.

(** Writing a property leaves the others alone. *)
Lemma get_set_ne k k0 v o : k0 <> k -> get k0 (set k v o) = get k0 o.
Proof.
  intros Hne. unfold set. destruct (get k o).
  - now apply get_replace_ne.
  - destruct (array_index k).
    + now apply get_insert_index_ne.
    + now apply get_app_ne.
Qed.

Lemma get_set k k0 v o :
  get k0 (set k v o) = if String.eqb k0 k then Some v else get k0 o.
Proof.
  destruct (String.eqb k0 k) eqn:E.
  - apply String.eqb_eq in E. subst. apply get_set_eq.
  - apply String.eqb_neq in E. now apply get_set_ne.
Qed.

(** Setting an existing key keeps the key order. *)
Lemma keys_set_present k v o :
  get k o <> None -> keys (set k v o) = keys o.
Proof.
  intros H. unfold set. destruct (get k o); [|congruence].
  apply keys_replace.
Qed.


Lemma in_keys_insert_index n k v o x :
  In x (keys (insert_index n k v o)) <-> x = k \/ In x (keys o).
Proof.
  induction o as [|[k' v'] o IH]; simpl.
  - intuition.
  - destruct (array_index k') as [n'|]; simpl.
    + destruct (n' <? n)%N; simpl.
      * rewrite IH. intuition.
      * intuition.
    + intuition.
Qed.

Lemma in_keys_set k v o x :
  In x (keys (set k v o)) <-> x = k \/ In x (keys o).
Proof.
  unfold set. destruct (get k o) eqn:E.
  - rewrite keys_replace. split; [tauto|]. intros [->|H]; [|exact H].
    destruct (get_None_notin k o) as [_ H'].
    destruct (List.in_dec String.string_dec k (keys o)) as [Hin|Hn]; [exact Hin|].
    rewrite (H' Hn) in E. discriminate.
  - destruct (array_index k).
    + apply in_keys_insert_index.
    + unfold keys. rewrite map_app, in_app_iff. simpl. intuition.
Qed.

(** *** The enumeration order is an invariant of every object *)

Lemma key_before_named x k : array_index k = None -> key_before x k.
Proof.
  intros H. unfold key_before. rewrite H. now destruct (array_index x).
Qed.

Lemma nodup_keys_insert_index n k v o :
  ~ In k (keys o) -> List.NoDup (keys o) ->
  List.NoDup (keys (insert_index n k v o)).
Proof.
  induction o as [|[k' v'] o IH]; simpl; intros Hk Hnd.
  - constructor; [tauto|constructor].
  - assert (Hall : List.NoDup (k :: k' :: keys o)).
    { constructor; [simpl; tauto|exact Hnd]. }
    inversion Hnd as [|? ? Hk' Hnd']; subst.
    destruct (array_index k') as [n'|]; [|exact Hall].
    destruct (n' <? n)%N; [|exact Hall]. simpl.
    constructor.
    + rewrite in_keys_insert_index. intros [->|H]; tauto.
    + apply IH; tauto.
Qed.

Lemma sorted_keys_insert_index n k v o :
  array_index k = Some n -> ~ In k (keys o) ->
  StronglySorted key_before (keys o) ->
  StronglySorted key_before (keys (insert_index n k v o)).
Proof.
  intros Hidx.
  induction o as [|[k' v'] o IH]; simpl; intros Hk Hs.
  - repeat constructor.
  - inversion Hs as [|? ? Hs' Hall]; subst.
    assert (Hne : k' <> k) by tauto.
    destruct (array_index k') as [n'|] eqn:E'.
    + destruct (n' <? n)%N eqn:Hlt; simpl.
      * apply N.ltb_lt in Hlt. constructor; [apply IH; tauto|].
        apply List.Forall_forall. intros x Hx.
        apply in_keys_insert_index in Hx. destruct Hx as [->|Hx].
        -- unfold key_before. now rewrite E', Hidx.
        -- rewrite List.Forall_forall in Hall. now apply Hall.
      * apply N.ltb_ge in Hlt.
        assert (n <> n').
        { intros ->. apply Hne. now apply (array_index_inj _ _ n'). }
        constructor; [exact Hs|]. constructor.
        -- unfold key_before. rewrite Hidx, E'. lia.
        -- apply List.Forall_forall. intros x Hx.
           rewrite List.Forall_forall in Hall. specialize (Hall x Hx).
           unfold key_before in *. rewrite E' in Hall. rewrite Hidx.
           destruct (array_index x); [lia|exact I].
    + simpl. constructor; [exact Hs|]. constructor.
      * unfold key_before. now rewrite Hidx, E'.
      * apply List.Forall_forall. intros x Hx.
        rewrite List.Forall_forall in Hall. specialize (Hall x Hx).
        unfold key_before in *. rewrite E' in Hall. rewrite Hidx.
        destruct (array_index x); [contradiction|exact I].
Qed.

Lemma sorted_snoc (l : list string) k :
  (forall x, In x l -> key_before x k) ->
  StronglySorted key_before l ->
  StronglySorted key_before (l ++ [k]).
Proof.
  induction l as [|a l IH]; simpl; intros Hall Hs.
  - repeat constructor.
  - inversion Hs as [|? ? Hs' Ha]; subst. constructor.
    + apply IH; auto.
    + apply List.Forall_app. split; [exact Ha|]. constructor; auto.
Qed.

Lemma ordered_nil : ordered (V := V) [].
Proof. split; constructor. Qed.

Lemma ordered_set k v o : ordered o -> ordered (set k v o).
Proof.
  intros [Hnd Hs]. unfold ordered, set.
  destruct (get k o) eqn:E.
  - now rewrite keys_replace.
  - apply get_None_notin in E.
    destruct (array_index k) as [n|] eqn:Hidx.
    + split.
      * now apply nodup_keys_insert_index.
      * now apply sorted_keys_insert_index.
    + unfold keys in *. rewrite map_app. simpl. split.
      * apply List.NoDup_app; auto.
        -- constructor; [simpl; tauto|constructor].
        -- intros x Hx [<-|[]]. contradiction.
      * apply sorted_snoc; auto. intros x _.
        now apply key_before_named.
Qed.

Lemma ordered_fold_set members o :
  ordered o ->
  ordered (fold_left (fun o kv => set (fst kv) (snd kv) o) members o).
Proof.
  revert o. induction members as [|[k v] ms IH]; simpl; intros o Ho.
  - exact Ho.
  - apply IH. now apply ordered_set.
Qed.

(** What [JSON.parse] builds is ordered. *)
Lemma ordered_parse (members : list (string * V)) : ordered (parse members).
Proof. apply ordered_fold_set, ordered_nil. Qed.

Lemma insert_index_last n k v o :
  array_index k = Some n ->
  (forall x, In x (keys o) -> key_before x k) ->
  insert_index n k v o = (o ++ [(k, v)])%list.
Proof.
  intros Hidx. induction o as [|[k' v'] o IH]; simpl; intros Hall.
  - reflexivity.
  - pose proof (Hall k' (or_introl eq_refl)) as Hk'.
    unfold key_before in Hk'. rewrite Hidx in Hk'.
    destruct (array_index k') as [n'|]; [|contradiction].
    apply N.ltb_lt in Hk'. rewrite Hk'. f_equal. apply IH.
    intros x Hx. apply Hall. now right.
Qed.

Lemma sorted_app_before (l1 l2 : list string) a :
  StronglySorted key_before (l1 ++ a :: l2) ->
  forall x, In x l1 -> key_before x a.
Proof.
  induction l1 as [|b l1 IH]; simpl; intros Hs x Hx; [contradiction|].
  inversion Hs as [|? ? Hs' Hb]; subst. destruct Hx as [->|Hx].
  - rewrite List.Forall_forall in Hb. apply Hb. apply in_or_app. right. now left.
  - now apply IH.
Qed.

Lemma fold_set_ordered rest pre :
  ordered (pre ++ rest) ->
  fold_left (fun o kv => set (fst kv) (snd kv) o) rest pre
  = (pre ++ rest)%list.
Proof.
  revert pre. induction rest as [|[k v] rest IH]; simpl; intros pre Ho.
  - now rewrite app_nil_r.
  - assert (Hset : set k v pre = (pre ++ [(k, v)])%list).
    { destruct Ho as [Hnd Hs]. unfold keys in Hnd, Hs.
      rewrite map_app in Hnd, Hs. simpl in Hnd, Hs.
      assert (Hk : get k pre = None).
      { apply get_None_notin. apply List.NoDup_remove_2 in Hnd.
        intros Hin. apply Hnd. apply in_or_app. now left. }
      unfold set. rewrite Hk.
      destruct (array_index k) as [n|] eqn:Hidx; [|reflexivity].
      apply insert_index_last; [exact Hidx|].
      intros x Hx. eapply sorted_app_before; eauto. }
    rewrite Hset. rewrite IH.
    + now rewrite <- app_assoc.
    + now rewrite <- app_assoc.
Qed.

(** Writing an object with [JSON.stringify] and parsing it back gives
  the same object. *)
Lemma parse_ordered o : ordered o -> parse o = o.
Proof. intros Ho. unfold parse. now rewrite fold_set_ordered. Qed.

Lemma parse_parse (members : list (string * V)) :
  parse (parse members) = parse members.
Proof. apply parse_ordered, ordered_parse. Qed.

End WithValues.
End JsObjectFacts.
(** ** Properties of the topic store *)

Module TopicStoreFacts.
Import TopicStore.
Import JsObjectFacts.

Lemma clamp_importance_range i : 1 <= clamp_importance i <= 10.
Proof. unfold clamp_importance. lia. Qed.

Lemma clamp_importance_id i : 1 <= i <= 10 -> clamp_importance i = i.
Proof. unfold clamp_importance. lia. Qed.

Lemma loadProject_ordered fs p : JsObject.ordered (loadProject fs p).
Proof.
  unfold loadProject. destruct (fs !! p) as [[ms|]|].
  - apply ordered_parse.
  - apply ordered_nil.
  - apply ordered_nil.
Qed.

(** A saved document is read back as it was written. *)
Lemma load_saved fs p (topics : ProjectTopics) :
  JsObject.ordered topics -> loadProject (<[p := Json topics]> fs) p = topics.
Proof.
  intros Ho. unfold loadProject. rewrite lookup_insert_eq.
  now apply parse_ordered.
Qed.

Lemma load_saved_other fs p p' (topics : ProjectTopics) :
  p' <> p -> loadProject (<[p := Json topics]> fs) p' = loadProject fs p'.
Proof.
  intros Hne. unfold loadProject. now rewrite lookup_insert_ne.
Qed.

Lemma store_ok now fs p t c tg i :
  storeTopicMemory true now fs p t c tg i =
  (<[p := Json (JsObject.set t
                  {| content := c; tags := tg;
                     importance := clamp_importance i;
                     timestamp := timestamp_or (getTopicMemory fs p t) now;
                     lastModified := now |} (loadProject fs p))]> fs,
   Return tt).
Proof. reflexivity. Qed.

(** The document after a store that succeeds. *)
Lemma load_after_store now fs p t c tg i :
  loadProject (fst (storeTopicMemory true now fs p t c tg i)) p =
  JsObject.set t
    {| content := c; tags := tg;
       importance := clamp_importance i;
       timestamp := timestamp_or (getTopicMemory fs p t) now;
       lastModified := now |} (loadProject fs p).
Proof.
  rewrite store_ok. simpl. apply load_saved.
  apply ordered_set, loadProject_ordered.
Qed.

Lemma get_after_store now fs p t c tg i :
  getTopicMemory (fst (storeTopicMemory true now fs p t c tg i)) p t =
  Some {| content := c; tags := tg;
          importance := clamp_importance i;
          timestamp := timestamp_or (getTopicMemory fs p t) now;
          lastModified := now |}.
Proof.
  unfold getTopicMemory at 1. rewrite load_after_store. apply get_set_eq.
Qed.


(** The timestamp written by a store: the one of the record it replaces,
    unless that is 0 or there is none. *)
Lemma store_timestamp now fs p t c tg i :
  option_map timestamp
    (getTopicMemory (fst (storeTopicMemory true now fs p t c tg i)) p t)
  = Some (match getTopicMemory fs p t with
          | Some old => if timestamp old =? 0 then now else timestamp old
          | None => now
          end).
Proof. rewrite get_after_store. reflexivity. Qed.

(** *** Order of the topic names *)




(** Whatever the names, the list has no repetition and enumerates the
    array-index names first, in ascending numeric order. *)
Lemma listTopics_index_names_first fs p :
  List.NoDup (listTopics fs p) /\
  StronglySorted JsObject.key_before (listTopics fs p).
Proof. apply loadProject_ordered. Qed.

(** *** Fixed topics *)

Lemma get_init_topic now (topics : ProjectTopics) x t :
  JsObject.get t (init_topic now topics x) =
  match JsObject.get t topics with
  | Some m => Some m
  | None => if String.eqb t x then Some (placeholder now t) else None
  end.
Proof.
  unfold init_topic. destruct (JsObject.get x topics) eqn:Ex.
  - destruct (JsObject.get t topics) eqn:Et; [reflexivity|].
    destruct (String.eqb t x) eqn:E; [|reflexivity].
    apply String.eqb_eq in E. congruence.
  - rewrite get_set. destruct (String.eqb t x) eqn:E.
    + apply String.eqb_eq in E. subst. now rewrite Ex.
    + now destruct (JsObject.get t topics).
Qed.

Lemma get_fold_init now names (topics : ProjectTopics) t :
  JsObject.get t (fold_left (init_topic now) names topics) =
  match JsObject.get t topics with
  | Some m => Some m
  | None =>
      if existsb (String.eqb t) names then Some (placeholder now t) else None
  end.
Proof.
  revert topics. induction names as [|x names IH]; simpl; intros topics.
  - now destruct (JsObject.get t topics).
  - rewrite IH, get_init_topic.
    destruct (JsObject.get t topics); [reflexivity|].
    now destruct (String.eqb t x).
Qed.

Lemma ordered_fold_init now names (topics : ProjectTopics) :
  JsObject.ordered topics -> JsObject.ordered (fold_left (init_topic now) names topics).
Proof.
  revert topics. induction names as [|x names IH]; simpl; intros topics Ho.
  - exact Ho.
  - apply IH. unfold init_topic.
    destruct (JsObject.get x topics); [exact Ho|]. now apply ordered_set.
Qed.

Lemma fold_init_present now names (topics : ProjectTopics) :
  (forall x, In x names -> JsObject.get x topics <> None) ->
  fold_left (init_topic now) names topics = topics.
Proof.
  induction names as [|x names IH]; simpl; intros Hall; [reflexivity|].
  assert (Hx : init_topic now topics x = topics).
  { unfold init_topic. specialize (Hall x (or_introl eq_refl)).
    now destruct (JsObject.get x topics). }
  rewrite Hx. apply IH. intros y Hy. apply Hall. now right.
Qed.

Lemma init_ok now fs p :
  initializeFixedTopics true now fs p =
  (<[p := Json (fold_left (init_topic now) FIXED_TOPICS (loadProject fs p))]> fs,
   Return tt).
Proof. reflexivity. Qed.

Lemma load_after_init now fs p :
  loadProject (fst (initializeFixedTopics true now fs p)) p =
  fold_left (init_topic now) FIXED_TOPICS (loadProject fs p).
Proof.
  rewrite init_ok. cbn [fst]. apply load_saved.
  apply ordered_fold_init, loadProject_ordered.
Qed.

Lemma get_after_init now fs p t :
  getTopicMemory (fst (initializeFixedTopics true now fs p)) p t =
  match getTopicMemory fs p t with
  | Some m => Some m
  | None =>
      if existsb (String.eqb t) FIXED_TOPICS
      then Some (placeholder now t) else None
  end.
Proof.
  unfold getTopicMemory. rewrite load_after_init. apply get_fold_init.
Qed.

Lemma init_twice now now' fs p :
  let fs1 := fst (initializeFixedTopics true now fs p) in
  initializeFixedTopics true now' fs1 p = (fs1, Return tt).
Proof.
  intros fs1. rewrite init_ok. f_equal. subst fs1.
  rewrite load_after_init. rewrite init_ok. cbn [fst].
  rewrite fold_init_present.
  - apply insert_insert_eq.
  - intros x Hx. rewrite get_fold_init.
    destruct (JsObject.get x (loadProject fs p)); [discriminate|].
    assert (H : existsb (String.eqb x) FIXED_TOPICS = true).
    { apply existsb_exists. exists x. split; [exact Hx|].
      apply String.eqb_refl. }
    rewrite H. discriminate.
Qed.

End TopicStoreFacts.

(** ** Properties of the ranked search *)

Module SearchFacts.
Import TopicStore.

(** *** The stable sort *)

Section Sort.
Context {A : Type} (cmp : A -> A -> Z).

Lemma sort_insert_perm x l : Permutation (sort_insert cmp x l) (x :: l).
Proof.
  induction l as [|y l IH]; simpl; [reflexivity|].
  destruct (cmp x y >? 0); [|reflexivity].
  rewrite IH. apply perm_swap.
Qed.

Lemma array_sort_perm l : Permutation (array_sort cmp l) l.
Proof.
  induction l as [|x l IH]; simpl; [reflexivity|].
  fold (array_sort cmp l). rewrite sort_insert_perm. now constructor.
Qed.

(** Elements that tie with each other keep their relative order. *)
Lemma filter_sort_insert (P : A -> bool) x l :
  (forall y, P x = true -> P y = true -> cmp x y <= 0) ->
  List.filter P (sort_insert cmp x l) =
  if P x then x :: List.filter P l else List.filter P l.
Proof.
  intros Htie. induction l as [|y l IH]; simpl; [reflexivity|].
  destruct (cmp x y >? 0) eqn:E; simpl.
  - rewrite IH. destruct (P x) eqn:Px; [|reflexivity].
    destruct (P y) eqn:Py; [|reflexivity].
    specialize (Htie y eq_refl Py). apply Z.gtb_lt in E. lia.
  - reflexivity.
Qed.

Lemma filter_array_sort (P : A -> bool) l :
  (forall x y, P x = true -> P y = true -> cmp x y <= 0) ->
  List.filter P (array_sort cmp l) = List.filter P l.
Proof.
  intros Htie. induction l as [|x l IH]; simpl; [reflexivity|].
  fold (array_sort cmp l). rewrite filter_sort_insert by (intros; now apply Htie).
  now rewrite IH.
Qed.

Hypothesis cmp_total : forall a b, cmp a b > 0 -> cmp b a <= 0.
Hypothesis cmp_trans : forall a b c, cmp a b <= 0 -> cmp b c <= 0 -> cmp a c <= 0.

Lemma sort_insert_sorted x l :
  StronglySorted (fun a b => cmp a b <= 0) l ->
  StronglySorted (fun a b => cmp a b <= 0) (sort_insert cmp x l).
Proof.
  induction l as [|y l IH]; simpl; intros Hs.
  - repeat constructor.
  - inversion Hs as [|? ? Hs' Hy]; subst.
    destruct (cmp x y >? 0) eqn:E.
    + apply Z.gtb_lt in E. constructor; [now apply IH|].
      apply List.Forall_forall. intros z Hz.
      apply (Permutation_in _ (sort_insert_perm x l)) in Hz.
      destruct Hz as [<-|Hz].
      * apply cmp_total. lia.
      * rewrite List.Forall_forall in Hy. now apply Hy.
    + assert (Hxy : cmp x y <= 0).
      { destruct (Z.gtb_spec (cmp x y) 0); [discriminate|lia]. }
      constructor; [exact Hs|]. constructor; [exact Hxy|].
      apply List.Forall_forall. intros z Hz.
      rewrite List.Forall_forall in Hy. eapply cmp_trans; eauto.
Qed.

Lemma array_sort_sorted l :
  StronglySorted (fun a b => cmp a b <= 0) (array_sort cmp l).
Proof.
  induction l as [|x l IH]; simpl; [constructor|].
  now apply sort_insert_sorted.
Qed.

End Sort.

Lemma strongly_sorted_impl {A : Type} (R S : A -> A -> Prop) l :
  (forall a b, R a b -> S a b) -> StronglySorted R l -> StronglySorted S l.
Proof.
  intros HRS Hs. induction Hs as [|a l Hs IH Ha]; constructor; [exact IH|].
  eapply List.Forall_impl; [|exact Ha]. intros b. apply HRS.
Qed.

(** *** The comparator of the search *)

Lemma compare_results_le a b :
  compare_results a b <= 0 <-> ranks_before a b.
Proof.
  unfold compare_results, ranks_before.
  destruct (Z.eqb_spec (score b - score a) 0); lia.
Qed.

Lemma compare_results_total a b :
  compare_results a b > 0 -> compare_results b a <= 0.
Proof.
  unfold compare_results.
  destruct (Z.eqb_spec (score b - score a) 0);
    destruct (Z.eqb_spec (score a - score b) 0); lia.
Qed.

Lemma compare_results_trans a b c :
  compare_results a b <= 0 -> compare_results b c <= 0 ->
  compare_results a c <= 0.
Proof.
  rewrite !compare_results_le. unfold ranks_before. lia.
Qed.

Lemma compare_results_tie s i x y :
  has_rank s i x = true -> has_rank s i y = true -> compare_results x y <= 0.
Proof.
  unfold has_rank. rewrite !andb_true_iff, !Z.eqb_eq.
  intros [? ?] [? ?]. apply compare_results_le. unfold ranks_before. lia.
Qed.

(** *** The scoring loop against the scoring rule *)

Lemma existsb_map {B C : Type} (f : C -> bool) (g : B -> C) (l : list B) :
  existsb f (map g l) = existsb (fun x => f (g x)) l.
Proof.
  induction l as [|x l IH]; simpl; [reflexivity|]. now rewrite IH.
Qed.

Lemma entry_score_spec query topicName m :
  entry_score (JsString.toLowerCase query) topicName m =
  spec_score query topicName m.
Proof.
  unfold entry_score, spec_score, contains_ci. rewrite existsb_map.
  destruct (JsString.includes _ _); destruct (existsb _ _);
    destruct (JsString.includes _ _); reflexivity.
Qed.

Lemma collect_results_spec query (topics : ProjectTopics) :
  collect_results (JsString.toLowerCase query) topics =
  List.filter (fun r => score r >? 0) (scored_entries query topics).
Proof.
  induction topics as [|[n m] topics IH]; simpl; [reflexivity|].
  rewrite entry_score_spec, IH.
  now destruct (spec_score query n m >? 0).
Qed.

(** *** Slicing *)

Lemma array_slice0_firstn {A : Type} (l : list A) limit :
  0 <= limit -> array_slice0 l limit = firstn (Z.to_nat limit) l.
Proof.
  intros Hl. unfold array_slice0.
  destruct (Z.ltb_spec limit 0); [lia|].
  destruct (Z.le_gt_cases limit (Z.of_nat (length l))).
  - now rewrite Z.min_l.
  - rewrite Z.min_r by lia. rewrite Nat2Z.id.
    rewrite !firstn_all2; [reflexivity|lia|lia].
Qed.

Lemma array_slice0_all {A : Type} (l : list A) limit :
  Z.of_nat (length l) <= limit -> array_slice0 l limit = l.
Proof.
  intros Hl. rewrite array_slice0_firstn by lia.
  apply firstn_all2. lia.
Qed.

(** *** The search *)

Lemma rank_perm fs p query :
  Permutation (rankTopicMemories fs p query)
    (List.filter (fun r => score r >? 0)
       (scored_entries query (loadProject fs p))).
Proof.
  unfold rankTopicMemories. rewrite collect_results_spec.
  apply array_sort_perm.
Qed.

Lemma rank_sorted fs p query :
  StronglySorted ranks_before (rankTopicMemories fs p query).
Proof.
  unfold rankTopicMemories.
  eapply strongly_sorted_impl;
    [|apply array_sort_sorted;
       [apply compare_results_total|apply compare_results_trans]].
  intros a b. apply compare_results_le.
Qed.

Lemma rank_stable fs p query s i :
  List.filter (has_rank s i) (rankTopicMemories fs p query) =
  List.filter (has_rank s i)
    (List.filter (fun r => score r >? 0)
       (scored_entries query (loadProject fs p))).
Proof.
  unfold rankTopicMemories. rewrite collect_results_spec.
  apply filter_array_sort. intros x y. apply compare_results_tie.
Qed.

(** *** The empty query *)

Lemma includes_empty s : JsString.includes s "" = true.
Proof. destruct s; reflexivity. Qed.

Lemma spec_score_empty topicName m :
  spec_score "" topicName m = match tags m with [] => 4 | _ => 6 end.
Proof.
  unfold spec_score, contains_ci. simpl JsString.toLowerCase.
  rewrite !includes_empty.
  destruct (tags m) as [|tag rest]; simpl; [reflexivity|].
  now rewrite includes_empty.
Qed.

End SearchFacts.

(** ** Properties of the memory store *)

Module MemoryStoreFacts.
Import MemoryStore.



Lemma getMemory_cached st key m :
  cache st !! key = Some m -> getMemory st key = (st, Some m).
Proof. intros H. unfold getMemory. now rewrite H. Qed.


















(** *** Cleanup *)

Lemma cleanup_turn_spec u now maxAge st n m :
  disk st !! id m = Some m ->
  snd (cleanup_turn u (now - maxAge) (st, n) m) =
    (if cleanup_removes u now maxAge m then n + 1 else n) /\
  disk (fst (cleanup_turn u (now - maxAge) (st, n) m)) =
    (if cleanup_removes u now maxAge m then delete (id m) (disk st)
     else disk st).
Proof.
  intros Hm. unfold cleanup_turn, cleanup_removes, cleanup_candidate.
  destruct ((timestamp m <? now - maxAge) && (importance m <? 5)); simpl;
    [|now split].
  unfold deleteMemory. simpl. rewrite Hm.
  destruct (u (id m)); simpl; now split.
Qed.

Lemma cleanup_fold u now maxAge l : forall st n,
  (forall m, In m l -> disk st !! id m = Some m) ->
  List.NoDup (map id l) ->
  let r := fold_left (cleanup_turn u (now - maxAge)) l (st, n) in
  snd r = n + Z.of_nat (length (List.filter (cleanup_removes u now maxAge) l)) /\
  forall key,
    disk (fst r) !! key =
    if existsb (fun m => String.eqb (id m) key && cleanup_removes u now maxAge m) l
    then None else disk st !! key.
Proof.
  induction l as [|m l IH]; intros st n Hin Hnd.
  - simpl. split; [lia|reflexivity].
  - cbn [fold_left].
    destruct (cleanup_turn_spec u now maxAge st n m (Hin m (or_introl eq_refl)))
      as [Hn Hd].
    destruct (cleanup_turn u (now - maxAge) (st, n) m) as [st1 n1].
    simpl in Hn, Hd. inversion Hnd as [|? ? Hm Hnd']; subst.
    assert (Hin1 : forall m', In m' l -> disk st1 !! id m' = Some m').
    { intros m' Hm'. rewrite Hd.
      assert (Hne : id m <> id m').
      { intros Heq. apply Hm. rewrite Heq. now apply in_map. }
      destruct (cleanup_removes u now maxAge m).
      - rewrite lookup_delete_ne by exact Hne. apply Hin. now right.
      - apply Hin. now right. }
    destruct (IH st1 (if cleanup_removes u now maxAge m then n + 1 else n)
                Hin1 Hnd') as [IHn IHd]. split.
    + rewrite IHn. simpl.
      destruct (cleanup_removes u now maxAge m); simpl length; lia.
    + intros key. rewrite IHd. simpl.
      destruct (existsb _ l) eqn:Ex.
      * now rewrite orb_true_r.
      * rewrite orb_false_r, Hd.
        destruct (String.eqb (id m) key) eqn:Ek; simpl.
        -- apply String.eqb_eq in Ek. subst key.
           destruct (cleanup_removes u now maxAge m); [|reflexivity].
           apply lookup_delete_eq.
        -- apply String.eqb_neq in Ek.
           destruct (cleanup_removes u now maxAge m); [|reflexivity].
           now apply lookup_delete_ne.
Qed.

Lemma cleanup_turn_cache u cutoff st n m :
  cache (fst (cleanup_turn u cutoff (st, n) m)) =
  if cleanup_candidate cutoff m then delete (id m) (cache st) else cache st.
Proof.
  unfold cleanup_turn. destruct (cleanup_candidate cutoff m); [|reflexivity].
  unfold deleteMemory. simpl.
  destruct (disk st !! id m); [|reflexivity].
  now destruct (u (id m)).
Qed.

(** The cleanup drops the cache entry of every candidate it meets. *)
Lemma cleanup_fold_cache u cutoff l : forall st n key,
  cache (fst (fold_left (cleanup_turn u cutoff) l (st, n))) !! key =
  if existsb (fun m => String.eqb (id m) key && cleanup_candidate cutoff m) l
  then None else cache st !! key.
Proof.
  induction l as [|m l IH]; intros st n key; [reflexivity|].
  cbn [fold_left existsb].
  pose proof (cleanup_turn_cache u cutoff st n m) as Hc.
  destruct (cleanup_turn u cutoff (st, n) m) as [st1 n1]. simpl in Hc.
  rewrite IH, Hc.
  destruct (existsb _ l); [now rewrite orb_true_r|]. rewrite orb_false_r.
  destruct (String.eqb (id m) key) eqn:Ek; simpl.
  - apply String.eqb_eq in Ek. subst key.
    destruct (cleanup_candidate cutoff m); [apply lookup_delete_eq|reflexivity].
  - apply String.eqb_neq in Ek.
    destruct (cleanup_candidate cutoff m); [|reflexivity].
    now apply lookup_delete_ne.
Qed.

Lemma getMemory_result st key :
  snd (getMemory st key) =
  match cache st !! key with
  | Some cached => Some cached
  | None => disk st !! key
  end.
Proof.
  unfold getMemory. destruct (cache st !! key); [reflexivity|].
  now destruct (disk st !! key).
Qed.

Lemma loadAllMemories_spec st m :
  disk_wf st ->
  In m (loadAllMemories st) <-> disk st !! id m = Some m.
Proof.
  intros Hwf. unfold loadAllMemories. rewrite in_map_iff. split.
  - intros [[k m'] [Heq Hin]]. simpl in Heq. subst m'.
    apply list_elem_of_In, elem_of_map_to_list in Hin.
    now rewrite (Hwf k m Hin).
  - intros H. exists (id m, m). split; [reflexivity|].
    now apply list_elem_of_In, elem_of_map_to_list.
Qed.

Lemma loadAllMemories_ids st :
  disk_wf st -> map id (loadAllMemories st) = map fst (map_to_list (disk st)).
Proof.
  intros Hwf. unfold loadAllMemories. rewrite map_map.
  apply map_ext_in. intros [k m] Hin. simpl.
  apply list_elem_of_In, elem_of_map_to_list in Hin. now apply Hwf.
Qed.

Lemma loadAllMemories_nodup st :
  disk_wf st -> List.NoDup (map id (loadAllMemories st)).
Proof.
  intros Hwf. rewrite loadAllMemories_ids by exact Hwf.
  apply NoDup_ListNoDup. apply NoDup_fst_map_to_list.
Qed.

(** What the cleanup leaves on disk and in the cache, and what it
    counts. *)
Lemma cleanup_spec u now st maxAge :
  disk_wf st ->
  let r := cleanupOldMemories u now st maxAge in
  snd r = Z.of_nat (length (List.filter (cleanup_removes u now maxAge)
                              (loadAllMemories st))) /\
  (forall key m,
      disk st !! key = Some m ->
      cache (fst r) !! key =
      if cleanup_candidate (now - maxAge) m then None else cache st !! key) /\
  forall key,
    disk (fst r) !! key =
    match disk st !! key with
    | Some m => if cleanup_removes u now maxAge m then None else Some m
    | None => None
    end.
Proof.
  intros Hwf r. subst r. unfold cleanupOldMemories.
  destruct (cleanup_fold u now maxAge (loadAllMemories st) st 0) as [Hn Hd].
  { intros m Hm. now apply loadAllMemories_spec. }
  { now apply loadAllMemories_nodup. }
  split; [rewrite Hn; lia|]. split.
  { intros key m Hm. rewrite cleanup_fold_cache.
    assert (Hid : id m = key) by now apply Hwf.
    destruct (cleanup_candidate (now - maxAge) m) eqn:Hc.
    - assert (Hex : existsb (fun m0 => String.eqb (id m0) key
                               && cleanup_candidate (now - maxAge) m0)
                      (loadAllMemories st) = true).
      { apply existsb_exists. exists m. split.
        - apply loadAllMemories_spec; [exact Hwf|]. now rewrite Hid.
        - rewrite Hid, String.eqb_refl. exact Hc. }
      now rewrite Hex.
    - destruct (existsb _ _) eqn:Hex; [|reflexivity].
      apply existsb_exists in Hex. destruct Hex as [m' [Hin Hm']].
      apply andb_true_iff in Hm'. destruct Hm' as [Hk Hc'].
      apply String.eqb_eq in Hk.
      apply loadAllMemories_spec in Hin; [|exact Hwf].
      rewrite Hk, Hm in Hin. injection Hin as ->. congruence. }
  intros key. rewrite Hd.
  destruct (disk st !! key) as [m|] eqn:E.
  - assert (Hid : id m = key) by now apply Hwf.
    destruct (cleanup_removes u now maxAge m) eqn:Hr.
    + assert (Hex : existsb (fun m0 => String.eqb (id m0) key
                               && cleanup_removes u now maxAge m0)
                      (loadAllMemories st) = true).
      { apply existsb_exists. exists m. split.
        - apply loadAllMemories_spec; [exact Hwf|]. now rewrite Hid.
        - rewrite Hid, String.eqb_refl. exact Hr. }
      now rewrite Hex.
    + destruct (existsb _ _) eqn:Hex; [|reflexivity].
      apply existsb_exists in Hex. destruct Hex as [m' [Hin Hm']].
      apply andb_true_iff in Hm'. destruct Hm' as [Hk Hr'].
      apply String.eqb_eq in Hk.
      apply loadAllMemories_spec in Hin; [|exact Hwf].
      rewrite Hk, E in Hin. injection Hin as ->. congruence.
  - now destruct (existsb _ _).
Qed.

End MemoryStoreFacts.

(** ** Properties of the detection cascade *)

Module IdentityFacts.
Import Identity.

Lemma accept_unusable c extra m rest :
  usable c = None -> accept c extra m rest = rest.
Proof. intros H. unfold accept. now rewrite H. Qed.

Lemma usable_recovered_throw msg on_error :
  usable (recovered (Throw msg) on_error) = None.
Proof. reflexivity. Qed.

(** A method that throws is taken as a method that finds nothing. *)
Lemma accept_quiet body on_error extra m rest :
  accept (recovered (quiet body) on_error) extra m rest =
  accept (recovered body on_error) extra m rest.
Proof. destruct body; reflexivity. Qed.

Ltac unfold_methods :=
  unfold detectVSCodeActiveWorkspaceAdvanced, detectUserSpecifiedProject,
    detectActiveVSCodeWorkspace, detectPackageNameWithSource,
    detectFromVSCodeConfig, detectVSCodeWorkspaceFromParent,
    detectVSCodeWorkspaceEnhanced, detectVSCodeWorkspaceWithSource,
    detectProjectFromCommonPatterns, detectWorkspaceViaCommands,
    detectVSCodeWorkspaceFromSettings;
  cbn [quiet_env cwd homedir basename path_join existsSync
       try_VSCodeActiveWorkspaceAdvanced try_UserSpecifiedProject
       try_ActiveVSCodeWorkspace try_PackageNameWithSource
       try_FromVSCodeConfig try_VSCodeWorkspaceFromParent
       try_VSCodeWorkspaceEnhanced try_VSCodeWorkspaceWithSource
       try_ProjectFromCommonPatterns try_WorkspaceViaCommands
       try_VSCodeWorkspaceFromSettings].

Lemma cascade_from_cwd_quiet e currentDir :
  cascade_from_cwd (quiet_env e) currentDir = cascade_from_cwd e currentDir.
Proof.
  unfold cascade_from_cwd, directory_name_usable, hasProjectIndicators.
  unfold_methods.
  destruct (String.eqb currentDir (homedir e) || isSystemOrVSCodePath currentDir);
    rewrite !accept_quiet; reflexivity.
Qed.

Lemma cascade_quiet e : cascade (quiet_env e) = cascade e.
Proof.
  unfold cascade. unfold_methods. rewrite !accept_quiet.
  destruct (cwd e) as [currentDir|msg]; [|reflexivity].
  now rewrite cascade_from_cwd_quiet.
Qed.

Lemma regular_return r : method r <> "Error Fallback" -> regular (Return r).
Proof. intros H r' [= <-]. exact H. Qed.

Lemma regular_throw msg : regular (Throw msg).
Proof. intros r H. discriminate. Qed.

Lemma regular_accept c extra m rest :
  m <> "Error Fallback" -> regular rest -> regular (accept c extra m rest).
Proof.
  intros Hm Hrest. unfold accept.
  destruct (usable c) as [n|]; [|exact Hrest].
  destruct (extra n); [|exact Hrest]. now apply regular_return.
Qed.

Lemma regular_cascade_from_cwd e currentDir :
  regular (cascade_from_cwd e currentDir).
Proof.
  unfold cascade_from_cwd.
  destruct (directory_name_usable e currentDir).
  - apply regular_return. discriminate.
  - repeat (apply regular_accept; [discriminate|]).
    destruct (String.eqb currentDir (homedir e) || isSystemOrVSCodePath currentDir).
    + repeat (apply regular_accept; [discriminate|]).
      apply regular_return. discriminate.
    + repeat (apply regular_accept; [discriminate|]).
      apply regular_return. discriminate.
Qed.

Lemma regular_cascade e : regular (cascade e).
Proof.
  unfold cascade. repeat (apply regular_accept; [discriminate|]).
  destruct (cwd e); [apply regular_cascade_from_cwd|apply regular_throw].
Qed.

(** The error fallback is the result exactly when an error escapes. *)
Lemma error_fallback_iff e :
  method (detectProjectNameWithSource e) = "Error Fallback" <->
  exists msg, cascade e = Throw msg.
Proof.
  unfold detectProjectNameWithSource.
  pose proof (regular_cascade e) as Hreg.
  destruct (cascade e) as [r|msg].
  - split; [|intros [msg H]; discriminate].
    intros H. exfalso. now apply (Hreg r).
  - split; [intros _; now exists msg|reflexivity].
Qed.

(** The cascade when no detection method gives a usable name. *)
Lemma cascade_nothing_found e :
  (forall c, In c (methods e) -> usable c = None) ->
  cascade e =
  match cwd e with
  | Return currentDir =>
      Return (if directory_name_usable e currentDir
              then directory_identity e currentDir
              else fallback_identity (basename e currentDir))
  | Throw msg => Throw msg
  end.
Proof.
  intros Hall.
  assert (H1 := Hall (detectVSCodeActiveWorkspaceAdvanced e)).
  assert (H2 := Hall (detectUserSpecifiedProject e)).
  assert (H3 := Hall (detectActiveVSCodeWorkspace e)).
  assert (H4 := Hall (detectPackageNameWithSource e)).
  assert (H5 := Hall (detectFromVSCodeConfig e)).
  assert (H6 := Hall (detectVSCodeWorkspaceFromParent e)).
  assert (H7 := Hall (detectVSCodeWorkspaceEnhanced e)).
  assert (H8 := Hall (detectVSCodeWorkspaceWithSource e)).
  assert (H9 := Hall (detectProjectFromCommonPatterns e)).
  assert (H10 := Hall (detectWorkspaceViaCommands e)).
  assert (H11 := Hall (detectVSCodeWorkspaceFromSettings e)).
  unfold methods in *. cbn [In] in *.
  unfold cascade, cascade_from_cwd.
  rewrite !accept_unusable by tauto.
  destruct (cwd e) as [currentDir|msg]; [|reflexivity].
  destruct (directory_name_usable e currentDir); [reflexivity|].
  rewrite !accept_unusable by tauto.
  destruct (String.eqb currentDir (homedir e) || isSystemOrVSCodePath currentDir);
    rewrite ?accept_unusable by tauto; reflexivity.
Qed.

End IdentityFacts.

(** ** The definitions on concrete inputs *)

Module Examples.

Example array_index_examples :
  map JsObject.array_index
    ["0"; "42"; "4294967294"; "4294967295"; "01"; "-1"; "1.5"; "b"; ""] =
  [Some 0%N; Some 42%N; Some 4294967294%N; None; None; None; None; None; None].
Proof. vm_compute. reflexivity. Qed.

Example object_key_order :
  JsObject.keys
    (JsObject.parse [("b", 1); ("10", 2); ("a", 3); ("9", 4); ("b", 5)]) =
  ["9"; "10"; "b"; "a"].
Proof. vm_compute. reflexivity. Qed.

Example sanitize_examples :
  map Identity.sanitizeProjectName
    ["My Project!"; "--A__b--"; "---"; "Hello World 2.0"; "unknown-project"] =
  ["my-project"; "a__b"; "project"; "hello-world-2-0"; "unknown-project"].
Proof. vm_compute. reflexivity. Qed.

Example valid_name_examples :
  map Identity.isValidProjectName
    ["billing"; "a"; "vscode-x"; "Users"; "src"; "my-app"] =
  [true; false; false; false; false; true].
Proof. vm_compute. reflexivity. Qed.

Example slice_examples :
  TopicStore.array_slice0 [1; 2; 3] 2 = [1; 2] /\
  TopicStore.array_slice0 [1; 2; 3] 5 = [1; 2; 3] /\
  TopicStore.array_slice0 [1; 2; 3] (-1) = [1; 2] /\
  TopicStore.array_slice0 [1; 2; 3] (-7) = [].
Proof. repeat split. Qed.

(** The search scenario of the specification: one hit, on the content. *)
Example search_scenario :
  let fs :=
    fst (TopicStore.storeTopicMemory true 1 ∅ "shop" "bugs"
           "CPF validation rejects accents" ["checkout"] 9) in
  map (fun r => (TopicStore.topic r, TopicStore.score r))
    (TopicStore.searchTopicMemories fs "shop" "CPF" 10) = [("bugs", 3)].
Proof. vm_compute. reflexivity. Qed.

(** Deleting a topic that is not there writes nothing. *)
Example delete_missing_scenario :
  forall w fs, TopicStore.getTopicMemory fs "shop" "nonexistent" = None ->
  TopicStore.deleteTopicMemory w fs "shop" "nonexistent" = (fs, Return tt).
Proof.
  intros w fs H. unfold TopicStore.deleteTopicMemory.
  unfold TopicStore.getTopicMemory in H. now rewrite H.
Qed.

End Examples.

(** ** Properties of deletion, of the operations of a project and of the
    project files *)

Module TopicProjectFacts.
Import TopicProject TopicStore.

Section Remove.
Context {V : Type}.
Implicit Types (o : list (string * V)) (k : string).

Lemma in_keys_remove k x o :
  In x (JsObject.keys (JsObject.remove k o)) -> In x (JsObject.keys o).
Proof.
  induction o as [|[k' v] o IH]; simpl; [tauto|].
  destruct (String.eqb k k'); simpl; [tauto|]. intros [H|H]; auto.
Qed.





End Remove.

(** *** The document after each operation *)












(** *** The other projects *)


End TopicProjectFacts.

(** ** Properties of file names, of folds and of sublists *)

Module ListingFacts.
Import TopicProject.

Lemma startsWith_nil s : JsString.startsWith s "" = true.
Proof. now destruct s. Qed.

Lemma append_cons c (a b : string) :
  (String c a ++ b)%string = String c (a ++ b)%string.
Proof. reflexivity. Qed.

Lemma append_nil_r (s : string) : (s ++ "")%string = s.
Proof.
  induction s as [|c s IH]; [reflexivity|]. now rewrite append_cons, IH.
Qed.

Lemma append_assoc (a b c : string) :
  ((a ++ b) ++ c)%string = (a ++ b ++ c)%string.
Proof.
  induction a as [|x a IH]; [reflexivity|]. now rewrite !append_cons, IH.
Qed.

Lemma length_append (a b : string) :
  String.length (a ++ b) = (String.length a + String.length b)%nat.
Proof.
  induction a as [|x a IH]; [reflexivity|].
  rewrite append_cons. simpl. now rewrite IH.
Qed.

Lemma substring_all (s : string) : String.substring 0 (String.length s) s = s.
Proof. induction s as [|c s IH]; simpl; [reflexivity|congruence]. Qed.

Lemma substring_skip (a s : string) m :
  String.substring (String.length a) m (a ++ s) = String.substring 0 m s.
Proof.
  induction a as [|x a IH]; [reflexivity|]. rewrite append_cons. exact IH.
Qed.

Lemma endsWith_append (a suffix : string) :
  endsWith (a ++ suffix) suffix = true.
Proof.
  unfold endsWith. rewrite length_append.
  replace (String.length a + String.length suffix - String.length suffix)%nat
    with (String.length a) by lia.
  rewrite substring_skip, substring_all, String.eqb_refl.
  rewrite andb_true_r. apply Nat.leb_le. lia.
Qed.

(** No occurrence of [.json] starts inside a text without one and runs
    into a [.json] that follows it. *)
Lemma no_straddle (a rest : string) :
  a <> ""%string ->
  JsString.startsWith a ".json" = false ->
  JsString.startsWith (a ++ ".json" ++ rest) ".json" = false.
Proof.
  intros Hne H.
  destruct a as [|a0 [|a1 [|a2 [|a3 [|a4 a']]]]]; [congruence|..];
    rewrite ?append_cons; change ("" ++ ".json" ++ rest)%string
      with (String "." (String "j" (String "s" (String "o" (String "n" rest)))));
    cbn in H |- *; rewrite ?startsWith_nil in *;
    rewrite ?andb_true_r, ?andb_false_r in *; solve [reflexivity|exact H].
Qed.

Lemma replace_first_cons c s pattern replacement :
  replace_first (String c s) pattern replacement =
  if JsString.startsWith (String c s) pattern
  then (replacement ++ drop_chars (String.length pattern) (String c s))%string
  else String c (replace_first s pattern replacement).
Proof. reflexivity. Qed.

(** Removing the first [.json] of a text that has none before it. *)
Lemma replace_first_json (a rest : string) :
  JsString.includes a ".json" = false ->
  replace_first (a ++ ".json" ++ rest) ".json" "" = (a ++ rest)%string.
Proof.
  induction a as [|c a IH]; intros H.
  - change ("" ++ ".json" ++ rest)%string
      with (String "." (String "j" (String "s" (String "o" (String "n" rest))))).
    cbn. now rewrite startsWith_nil.
  - rewrite JsStringFacts.includes_cons in H.
    apply orb_false_iff in H. destruct H as [Hs Hi].
    change ((String c a ++ ".json" ++ rest)%string)
      with (String c (a ++ ".json" ++ rest)%string).
    rewrite replace_first_cons.
    change (String c (a ++ ".json" ++ rest)%string)
      with ((String c a ++ ".json" ++ rest)%string).
    rewrite no_straddle by (congruence || exact Hs).
    now rewrite IH.
Qed.

(** *** Folds of minimum, maximum and sum *)

Lemma fold_min_le x l :
  fold_right Z.min x l <= x /\ forall y, In y l -> fold_right Z.min x l <= y.
Proof.
  induction l as [|a l [IH1 IH2]]; simpl; [split; [lia|tauto]|].
  split; [lia|]. intros y [<-|Hy]; [lia|]. specialize (IH2 y Hy). lia.
Qed.

Lemma fold_max_ge x l :
  x <= fold_right Z.max x l /\ forall y, In y l -> y <= fold_right Z.max x l.
Proof.
  induction l as [|a l [IH1 IH2]]; simpl; [split; [lia|tauto]|].
  split; [lia|]. intros y [<-|Hy]; [lia|]. specialize (IH2 y Hy). lia.
Qed.

Lemma fold_min_attained x l :
  fold_right Z.min x l = x \/ In (fold_right Z.min x l) l.
Proof.
  induction l as [|a l IH]; simpl; [now left|].
  destruct (Z.min_spec a (fold_right Z.min x l)) as [[_ ->]|[_ ->]];
    [right; now left|]. destruct IH; [now left|right; now right].
Qed.

Lemma fold_max_attained x l :
  fold_right Z.max x l = x \/ In (fold_right Z.max x l) l.
Proof.
  induction l as [|a l IH]; simpl; [now left|].
  destruct (Z.max_spec a (fold_right Z.max x l)) as [[_ ->]|[_ ->]];
    [|right; now left]. destruct IH; [now left|right; now right].
Qed.

Lemma fold_sum_bounds {A : Type} (f : A -> Z) (l : list A) (lo hi : Z) :
  (forall x, In x l -> lo <= f x <= hi) ->
  forall acc,
    acc + lo * Z.of_nat (length l)
    <= fold_left (fun sum x => sum + f x) l acc
    <= acc + hi * Z.of_nat (length l).
Proof.
  induction l as [|a l IH]; intros Hall acc.
  - simpl. lia.
  - cbn [fold_left length].
    assert (Ha := Hall a (or_introl eq_refl)).
    assert (Hl : forall x, In x l -> lo <= f x <= hi)
      by (intros x Hx; apply Hall; now right).
    specialize (IH Hl (acc + f a)). lia.
Qed.

(** *** Sublists without repetition *)

Lemma nodup_map_filter {A B : Type} (h : A -> B) (f : A -> bool) l :
  List.NoDup (map h l) -> List.NoDup (map h (List.filter f l)).
Proof.
  induction l as [|a l IH]; simpl; intros Hnd; [constructor|].
  inversion Hnd as [|? ? Ha Hnd']; subst.
  destruct (f a); simpl; [|now apply IH].
  constructor; [|now apply IH].
  intros Hin. apply Ha. apply in_map_iff in Hin.
  destruct Hin as [x [Hx Hin]]. apply filter_In in Hin.
  apply in_map_iff. exists x. tauto.
Qed.

Lemma nodup_firstn {A : Type} n (l : list A) :
  List.NoDup l -> List.NoDup (firstn n l).
Proof.
  intros Hnd. rewrite <- (firstn_skipn n l) in Hnd.
  now apply List.NoDup_app_remove_r in Hnd.
Qed.

Lemma in_firstn {A : Type} n (l : list A) x : In x (firstn n l) -> In x l.
Proof.
  intros H. rewrite <- (firstn_skipn n l). apply in_or_app. now left.
Qed.

End ListingFacts.

(** ** Properties of the queries over all memories *)

Module MemoryQueriesFacts.
Import MemoryStore MemoryQueries.

Lemma array_sort_ext {A : Type} (cmp1 cmp2 : A -> A -> Z) l :
  (forall a b, cmp1 a b = cmp2 a b) ->
  TopicStore.array_sort cmp1 l = TopicStore.array_sort cmp2 l.
Proof.
  intros Hext. induction l as [|x l IH]; [reflexivity|].
  cbn [TopicStore.array_sort fold_right].
  fold (TopicStore.array_sort cmp1 l). fold (TopicStore.array_sort cmp2 l).
  rewrite IH. generalize (TopicStore.array_sort cmp2 l). intros s.
  induction s as [|y s IHs]; simpl; [reflexivity|].
  now rewrite Hext, IHs.
Qed.

Lemma by_importance_le a b :
  by_importance_then_recency a b <= 0 <-> ranks_before a b.
Proof.
  unfold by_importance_then_recency, ranks_before.
  destruct (Z.eqb_spec (importance b - importance a) 0); lia.
Qed.

Lemma by_importance_total a b :
  by_importance_then_recency a b > 0 -> by_importance_then_recency b a <= 0.
Proof.
  unfold by_importance_then_recency.
  destruct (Z.eqb_spec (importance b - importance a) 0);
    destruct (Z.eqb_spec (importance a - importance b) 0); lia.
Qed.

Lemma by_importance_trans a b c :
  by_importance_then_recency a b <= 0 -> by_importance_then_recency b c <= 0 ->
  by_importance_then_recency a c <= 0.
Proof. rewrite !by_importance_le. unfold ranks_before. lia. Qed.

Lemma in_loadAllMemories st m :
  In m (loadAllMemories st) <-> exists key, disk st !! key = Some m.
Proof.
  unfold loadAllMemories. rewrite in_map_iff. split.
  - intros [[k m'] [Heq Hin]]. simpl in Heq. subst m'. exists k.
    now apply list_elem_of_In, elem_of_map_to_list in Hin.
  - intros [k Hk]. exists (k, m). split; [reflexivity|].
    now apply list_elem_of_In, elem_of_map_to_list.
Qed.

Lemma rankMemories_perm st query wanted :
  Permutation (rankMemories st query wanted)
    (List.filter (search_match (JsString.toLowerCase query) wanted)
       (loadAllMemories st)).
Proof. apply SearchFacts.array_sort_perm. Qed.

Lemma rankMemories_sorted st query wanted :
  StronglySorted ranks_before (rankMemories st query wanted).
Proof.
  unfold rankMemories.
  eapply SearchFacts.strongly_sorted_impl;
    [|apply SearchFacts.array_sort_sorted;
       [apply by_importance_total|apply by_importance_trans]].
  intros a b. apply by_importance_le.
Qed.

Lemma shares_tag_nil memory : shares_tag [] memory = false.
Proof. reflexivity. Qed.

Lemma list_order_default sortBy a b :
  list_order sortBy a b =
  list_order (if String.eqb sortBy "importance" then "importance"
              else "timestamp") a b.
Proof.
  unfold list_order. destruct (String.eqb sortBy "importance") eqn:E;
    reflexivity.
Qed.

(** *** Getting, updating and deleting one memory *)

Lemma getMemory_none st key :
  snd (getMemory st key) = None <->
  cache st !! key = None /\ disk st !! key = None.
Proof.
  rewrite MemoryStoreFacts.getMemory_result.
  destruct (cache st !! key); [split; [discriminate|intros [? _]; discriminate]|].
  tauto.
Qed.

Lemma getMemory_none_state st key :
  snd (getMemory st key) = None -> fst (getMemory st key) = st.
Proof.
  unfold getMemory. destruct (cache st !! key); [discriminate|].
  now destruct (disk st !! key).
Qed.

Lemma getMemory_some_state st key m :
  snd (getMemory st key) = Some m ->
  cache (fst (getMemory st key)) !! key = Some m /\
  disk (fst (getMemory st key)) = disk st /\
  projectName (fst (getMemory st key)) = projectName st.
Proof.
  unfold getMemory. destruct (cache st !! key) as [c|] eqn:E.
  - simpl. intros [= <-]. now rewrite E.
  - destruct (disk st !! key) as [d|]; simpl; [|discriminate].
    intros [= <-]. now rewrite lookup_insert_eq.
Qed.

End MemoryQueriesFacts.

(** ** Properties of the name checks of the detection *)

Module NameFacts.
Import Identity IdentityMethods.

Lemma lower_ascii_idem c :
  JsString.lower_ascii (JsString.lower_ascii c) = JsString.lower_ascii c.
Proof. destruct c as [[] [] [] [] [] [] [] []]; reflexivity. Qed.

Lemma toLowerCase_idem s :
  JsString.toLowerCase (JsString.toLowerCase s) = JsString.toLowerCase s.
Proof.
  induction s as [|c s IH]; [reflexivity|].
  cbn [JsString.toLowerCase]. now rewrite lower_ascii_idem, IH.
Qed.

Lemma toLowerCase_append (a b : string) :
  JsString.toLowerCase (a ++ b) =
  (JsString.toLowerCase a ++ JsString.toLowerCase b)%string.
Proof.
  induction a as [|c a IH]; [reflexivity|].
  rewrite ListingFacts.append_cons. cbn [JsString.toLowerCase].
  now rewrite ListingFacts.append_cons, IH.
Qed.

Lemma includes_append (s q pre post : string) :
  JsString.includes s q = true ->
  JsString.includes (pre ++ s ++ post) q = true.
Proof.
  rewrite !JsStringFacts.includes_spec. intros [a [b ->]].
  exists (pre ++ a)%string, (b ++ post)%string.
  now rewrite !ListingFacts.append_assoc.
Qed.

Lemma lower_ascii_safe c : safe_char c = true -> JsString.lower_ascii c = c.
Proof.
  destruct c as [[] [] [] [] [] [] [] []]; intros H;
    first [reflexivity|discriminate H].
Qed.

Lemma safe_char_dash : safe_char dash = true.
Proof. reflexivity. Qed.

Lemma toLowerCase_safe s :
  all_chars safe_char s = true -> JsString.toLowerCase s = s.
Proof.
  induction s as [|c s IH]; [reflexivity|]. cbn [all_chars JsString.toLowerCase].
  intros H. apply andb_prop in H. destruct H as [Hc Hs].
  now rewrite lower_ascii_safe, IH.
Qed.

(** *** The stages of the sanitizer keep the characters safe *)

Lemma all_chars_replace_unsafe s :
  all_chars safe_char (replace_unsafe s) = true.
Proof.
  induction s as [|c s IH]; [reflexivity|]. cbn [replace_unsafe all_chars].
  rewrite IH, andb_true_r. fold (safe_char c).
  destruct (safe_char c) eqn:E; [exact E|reflexivity].
Qed.

Lemma replace_unsafe_safe s :
  all_chars safe_char s = true -> replace_unsafe s = s.
Proof.
  induction s as [|c s IH]; [reflexivity|]. cbn [all_chars replace_unsafe].
  intros H. apply andb_prop in H. destruct H as [Hc Hs].
  fold (safe_char c). now rewrite Hc, IH.
Qed.

Lemma all_chars_drop_leading P s :
  all_chars P s = true -> all_chars P (drop_leading_dashes s) = true.
Proof.
  induction s as [|c s IH]; [reflexivity|]. cbn [all_chars drop_leading_dashes].
  intros H. destruct (Ascii.eqb c dash); [|exact H].
  apply andb_prop in H. now apply IH.
Qed.

Lemma all_chars_drop_trailing P s :
  all_chars P s = true -> all_chars P (drop_trailing_dashes s) = true.
Proof.
  induction s as [|c s IH]; [reflexivity|]. cbn [all_chars drop_trailing_dashes].
  intros H. apply andb_prop in H. destruct H as [Hc Hs]. specialize (IH Hs).
  destruct (drop_trailing_dashes s) as [|c' r].
  - destruct (Ascii.eqb c dash); [reflexivity|]. cbn [all_chars]. now rewrite Hc.
  - cbn [all_chars] in *. now rewrite Hc, IH.
Qed.

Lemma all_chars_collapse P s :
  all_chars P s = true -> all_chars P (collapse_dashes s) = true.
Proof.
  induction s as [|c s IH]; [reflexivity|]. intros H.
  cbn [all_chars] in H. apply andb_prop in H. destruct H as [Hc Hs].
  specialize (IH Hs). cbn [collapse_dashes].
  destruct (Ascii.eqb c dash).
  - destruct s as [|c' s']; [cbn [all_chars]; now rewrite Hc|].
    destruct (Ascii.eqb c' dash); [exact IH|].
    cbn [all_chars]. fold collapse_dashes. now rewrite Hc, IH.
  - cbn [all_chars]. now rewrite Hc, IH.
Qed.

Lemma all_chars_substring P m : forall s,
  all_chars P s = true -> all_chars P (String.substring 0 m s) = true.
Proof.
  induction m as [|m IH]; intros [|c s] H; try reflexivity.
  cbn [String.substring all_chars] in *.
  apply andb_prop in H. destruct H as [Hc Hs]. now rewrite Hc, IH.
Qed.

Lemma length_substring m : forall s,
  (String.length (String.substring 0 m s) <= m)%nat.
Proof.
  induction m as [|m IH]; intros [|c s]; cbn [String.substring String.length];
    try lia.
  specialize (IH s). lia.
Qed.

Lemma substring_short m : forall s,
  (String.length s <= m)%nat -> String.substring 0 m s = s.
Proof.
  induction m as [|m IH]; intros [|c s] H; try reflexivity.
  - cbn [String.length] in H. lia.
  - cbn [String.substring String.length] in *. rewrite IH by lia. reflexivity.
Qed.

(** *** Dashes in front and in a row *)

Lemma drop_leading_start s : starts_with_dash (drop_leading_dashes s) = false.
Proof.
  induction s as [|c s IH]; [reflexivity|]. cbn [drop_leading_dashes].
  destruct (Ascii.eqb c dash) eqn:E; [exact IH|exact E].
Qed.

Lemma drop_leading_id s :
  starts_with_dash s = false -> drop_leading_dashes s = s.
Proof.
  destruct s as [|c s]; [reflexivity|]. cbn [starts_with_dash drop_leading_dashes].
  now intros ->.
Qed.

Lemma drop_trailing_start s :
  starts_with_dash s = false ->
  starts_with_dash (drop_trailing_dashes s) = false.
Proof.
  destruct s as [|c s]; [reflexivity|].
  cbn [starts_with_dash drop_trailing_dashes]. intros H.
  destruct (drop_trailing_dashes s); [rewrite H|]; exact H.
Qed.

Lemma drop_trailing_id s :
  ends_with_dash s = false -> drop_trailing_dashes s = s.
Proof.
  induction s as [|c s IH]; [reflexivity|]. intros H.
  cbn [drop_trailing_dashes]. destruct s as [|c' s'].
  - cbn [ends_with_dash] in H. cbn [drop_trailing_dashes]. now rewrite H.
  - change (ends_with_dash (String c' s') = false) in H.
    now rewrite (IH H).
Qed.

Lemma collapse_start s :
  starts_with_dash (collapse_dashes s) = starts_with_dash s.
Proof.
  induction s as [|c s IH]; [reflexivity|]. cbn [collapse_dashes].
  destruct (Ascii.eqb c dash) eqn:E.
  - destruct s as [|c' s']; [reflexivity|].
    destruct (Ascii.eqb c' dash) eqn:E'.
    + rewrite IH. cbn [starts_with_dash]. now rewrite E, E'.
    + reflexivity.
  - reflexivity.
Qed.

Lemma substring_start m s :
  starts_with_dash (String.substring 0 m s) = true ->
  starts_with_dash s = true.
Proof. destruct m, s; cbn [String.substring starts_with_dash]; congruence. Qed.

Lemma no_double_cons c s :
  no_double_dash (String c s) =
  negb (Ascii.eqb c dash && starts_with_dash s) && no_double_dash s.
Proof.
  destruct s as [|c' s']; [|reflexivity].
  cbn [no_double_dash starts_with_dash]. now rewrite andb_false_r.
Qed.

Lemma collapse_no_double s : no_double_dash (collapse_dashes s) = true.
Proof.
  induction s as [|c s IH]; [reflexivity|]. cbn [collapse_dashes].
  destruct (Ascii.eqb c dash) eqn:E.
  - destruct s as [|c' s']; [reflexivity|].
    destruct (Ascii.eqb c' dash) eqn:E'; [exact IH|].
    fold collapse_dashes. rewrite no_double_cons, IH, collapse_start.
    cbn [starts_with_dash]. now rewrite E', andb_false_r.
  - rewrite no_double_cons, IH, E. reflexivity.
Qed.

Lemma collapse_id s : no_double_dash s = true -> collapse_dashes s = s.
Proof.
  induction s as [|c s IH]; [reflexivity|]. rewrite no_double_cons.
  intros H. apply andb_prop in H. destruct H as [Hc Hs].
  cbn [collapse_dashes]. rewrite (IH Hs).
  destruct (Ascii.eqb c dash); [|reflexivity].
  destruct s as [|c' s']; [reflexivity|].
  cbn [starts_with_dash andb negb] in Hc.
  destruct (Ascii.eqb c' dash); [discriminate|reflexivity].
Qed.

Lemma substring_no_double m : forall s,
  no_double_dash s = true -> no_double_dash (String.substring 0 m s) = true.
Proof.
  induction m as [|m IH]; intros [|c s] H; try reflexivity.
  cbn [String.substring]. rewrite no_double_cons in *.
  apply andb_prop in H. destruct H as [Hc Hs]. rewrite (IH s Hs), andb_true_r.
  destruct (Ascii.eqb c dash); [|reflexivity].
  destruct (starts_with_dash (String.substring 0 m s)) eqn:E; [|reflexivity].
  apply substring_start in E. now rewrite E in Hc.
Qed.

(** The sanitizer gives a well-formed name. *)
Lemma sanitize_well_formed n : well_formed_name (sanitizeProjectName n).
Proof.
  unfold sanitizeProjectName.
  set (t := collapse_dashes (trim_dashes
              (replace_unsafe (JsString.toLowerCase n)))).
  assert (Hsafe : all_chars safe_char t = true).
  { apply all_chars_collapse, all_chars_drop_trailing, all_chars_drop_leading,
      all_chars_replace_unsafe. }
  assert (Hstart : starts_with_dash t = false).
  { unfold t. rewrite collapse_start. apply drop_trailing_start,
      drop_leading_start. }
  assert (Hdouble : no_double_dash t = true) by apply collapse_no_double.
  pose proof (length_substring 50 t) as Hlen.
  pose proof (all_chars_substring safe_char 50 t Hsafe) as Hsafe'.
  pose proof (substring_no_double 50 t Hdouble) as Hdouble'.
  assert (Hstart' : starts_with_dash (String.substring 0 50 t) = false).
  { destruct (starts_with_dash (String.substring 0 50 t)) eqn:E; [|reflexivity].
    apply substring_start in E. congruence. }
  destruct (String.substring 0 50 t) as [|c r] eqn:E.
  - repeat split; try reflexivity; cbn; lia.
  - repeat split; try assumption. cbn [String.length]. lia.
Qed.

(** A well-formed name without a dash at its end is kept as it is. *)
Lemma sanitize_id s :
  well_formed_name s -> ends_with_dash s = false -> sanitizeProjectName s = s.
Proof.
  intros [[Hlen Hsafe] [Hstart Hdouble]] Hend. unfold sanitizeProjectName, trim_dashes.
  rewrite toLowerCase_safe, replace_unsafe_safe, drop_leading_id,
    drop_trailing_id, collapse_id, substring_short by (assumption || lia).
  destruct s; [cbn [String.length] in Hlen; lia|reflexivity].
Qed.

(** *** The validity test *)

Lemma single_letter_length s : single_letter s = true -> String.length s = 1%nat.
Proof. destruct s as [|c [|c' s']]; cbn; congruence. Qed.

Lemma drive_letter_length s : drive_letter s = true -> String.length s = 1%nat.
Proof. destruct s as [|c [|c' s']]; cbn; congruence. Qed.

Lemma existsb_eqb_In (x : string) l :
  existsb (String.eqb x) l = true <-> In x l.
Proof.
  rewrite existsb_exists. split.
  - intros [y [Hin Heq]]. apply String.eqb_eq in Heq. now subst.
  - intros H. exists x. split; [exact H|apply String.eqb_refl].
Qed.

Lemma deciding_names_invalid x : In x deciding_names -> In x invalidNames.
Proof.
  unfold deciding_names. cbn [In]. intros H.
  repeat (destruct H as [<-|H]; [apply existsb_eqb_In; reflexivity|]).
  destruct H.
Qed.

(** An entry of [invalidNames] that a lowercased name of two characters
    or more without a forbidden pattern can be equal to. *)
Lemma invalid_names_decide x :
  In x invalidNames ->
  JsString.toLowerCase x = x ->
  (2 <= String.length x)%nat ->
  existsb (fun pattern => JsString.includes x pattern) forbiddenPatterns
    = false ->
  In x deciding_names.
Proof.
  unfold invalidNames. cbn [In]. intros H Hlow Hlen Hpat.
  repeat (destruct H as [<-|H];
          [first [ apply existsb_eqb_In; reflexivity
                 | discriminate Hlow
                 | discriminate Hpat
                 | cbn in Hlen; lia ]|]).
  destruct H.
Qed.

Lemma isValidProjectName_spec n :
  isValidProjectName n = true <->
  (2 <= String.length n)%nat /\
  (forall p, In p forbiddenPatterns ->
             JsString.includes (JsString.toLowerCase n) p = false) /\
  ~ In (JsString.toLowerCase n) deciding_names.
Proof.
  unfold isValidProjectName.
  destruct (Nat.ltb_spec (String.length n) 2) as [Hlt|Hge].
  { split; [discriminate|]. intros [H _]. lia. }
  set (l := JsString.toLowerCase n).
  assert (Hlen : (2 <= String.length l)%nat).
  { unfold l. now rewrite JsStringFacts.toLowerCase_length. }
  assert (Hlow : JsString.toLowerCase l = l) by apply toLowerCase_idem.
  destruct (existsb (fun pattern => JsString.includes l pattern)
              forbiddenPatterns) eqn:Hpat.
  { split; [discriminate|]. intros [_ [H _]].
    apply existsb_exists in Hpat. destruct Hpat as [p [Hin Hp]].
    rewrite (H p Hin) in Hp. discriminate. }
  assert (Hs : single_letter l = false).
  { destruct (single_letter l) eqn:E; [|reflexivity].
    apply single_letter_length in E. lia. }
  assert (Hd : drive_letter l = false).
  { destruct (drive_letter l) eqn:E; [|reflexivity].
    apply drive_letter_length in E. lia. }
  rewrite Hs, Hd, !andb_true_r. split.
  - intros H. split; [exact Hge|]. split.
    + intros p Hin. destruct (JsString.includes l p) eqn:E; [|reflexivity].
      assert (Hex : existsb (fun pattern => JsString.includes l pattern)
                      forbiddenPatterns = true).
      { apply existsb_exists. now exists p. }
      congruence.
    + intros Hin. apply deciding_names_invalid, existsb_eqb_In in Hin.
      now rewrite Hin in H.
  - intros [_ [_ Hnot]].
    destruct (existsb (String.eqb l) invalidNames) eqn:E; [|reflexivity].
    exfalso. apply Hnot. apply existsb_eqb_In in E.
    now apply invalid_names_decide.
Qed.

(** *** The cascade *)

Lemma accept_method c extra m rest r :
  accept c extra m rest = Return r -> method r = m \/ rest = Return r.
Proof.
  unfold accept. destruct (usable c) as [n|]; [|now right].
  destruct (extra n); [|now right]. intros [= <-]. now left.
Qed.

Lemma accept_well_formed c extra m rest :
  (forall r, rest = Return r -> well_formed_name (name r)) ->
  forall r, accept c extra m rest = Return r -> well_formed_name (name r).
Proof.
  intros Hrest r. unfold accept. destruct (usable c) as [n|]; [|apply Hrest].
  destruct (extra n); [|apply Hrest]. intros [= <-]. apply sanitize_well_formed.
Qed.

Lemma usable_valid c n :
  usable c = Some n -> cand_name c = Some n /\ isValidProjectName n = true.
Proof.
  unfold usable. destruct (cand_name c) as [x|]; [|discriminate].
  destruct (negb (String.eqb x "")); [|discriminate].
  destruct (isValidProjectName x) eqn:E; [|discriminate].
  cbn [andb]. intros [= <-]. now split.
Qed.

Lemma valid_not_empty n : isValidProjectName n = true -> n <> ""%string.
Proof. intros H ->. discriminate H. Qed.

Ltac in_list := cbn [In method_names]; repeat (first [left; reflexivity|right]).

Ltac accept_step H :=
  let Hm := fresh "Hm" in
  apply accept_method in H as [Hm|H];
  [rewrite Hm; repeat split; try discriminate; in_list|].

(** What the steps after [process.cwd()] return when the detection of
    the active workspace has no usable candidate. *)
Lemma cascade_from_cwd_methods e dir r :
  usable (detectActiveVSCodeWorkspace e) = None ->
  cascade_from_cwd e dir = Return r ->
  (In (method r) method_names /\
   method r <> "Active VS Code Workspace Detection"%string) /\
  (method r = "Smart Pattern Detection"%string ->
   dir = homedir e \/ isSystemOrVSCodePath dir = true) /\
  (method r = "Directory Name"%string ->
   source r = dir /\ directory_name_usable e dir = true).
Proof.
  intros Ha H. unfold cascade_from_cwd in H.
  destruct (directory_name_usable e dir) eqn:Hd.
  { injection H as <-. cbn [method source].
    repeat split; try discriminate. in_list. }
  do 4 accept_step H.
  destruct (String.eqb dir (homedir e) || isSystemOrVSCodePath dir) eqn:Hc.
  - apply accept_method in H as [Hm|H].
    { rewrite Hm. repeat split; try discriminate; [in_list|].
      intros _. apply orb_prop in Hc. destruct Hc as [Hc|Hc]; [left|now right].
      now apply String.eqb_eq. }
    do 2 accept_step H. rewrite IdentityFacts.accept_unusable in H by exact Ha.
    injection H as <-. cbn [method fallback_identity].
    repeat split; try discriminate. in_list.
  - do 2 accept_step H. rewrite IdentityFacts.accept_unusable in H by exact Ha.
    injection H as <-. cbn [method fallback_identity].
    repeat split; try discriminate. in_list.
Qed.

Lemma cascade_methods e r :
  cascade e = Return r ->
  (In (method r) method_names /\
   method r <> "Active VS Code Workspace Detection"%string) /\
  (method r = "Smart Pattern Detection"%string ->
   exists dir, cwd e = Return dir /\
               (dir = homedir e \/ isSystemOrVSCodePath dir = true)) /\
  (method r = "Directory Name"%string ->
   exists dir, cwd e = Return dir /\ source r = dir /\
               directory_name_usable e dir = true).
Proof.
  intros H. unfold cascade in H.
  destruct (usable (detectActiveVSCodeWorkspace e)) as [n|] eqn:Ha.
  - do 2 accept_step H. unfold accept in H. rewrite Ha in H.
    cbn [any_name] in H. injection H as <-. cbn [method].
    repeat split; try discriminate. in_list.
  - do 4 accept_step H.
    destruct (cwd e) as [dir|msg]; [|discriminate].
    destruct (cascade_from_cwd_methods e dir r Ha H) as [H1 [H2 H3]].
    split; [exact H1|]. split; intros Hm; exists dir; split; auto.
Qed.

Lemma cascade_well_formed e r :
  cascade e = Return r -> well_formed_name (name r).
Proof.
  revert r. unfold cascade. do 4 apply accept_well_formed.
  intros r. destruct (cwd e) as [dir|msg]; [|discriminate].
  unfold cascade_from_cwd.
  destruct (directory_name_usable e dir).
  { intros [= <-]. apply sanitize_well_formed. }
  revert r. do 4 apply accept_well_formed.
  destruct (String.eqb dir (homedir e) || isSystemOrVSCodePath dir);
    repeat apply accept_well_formed;
    intros r [= <-]; apply sanitize_well_formed.
Qed.

(** *** The path test *)

Lemma isSystemOrVSCodePath_append p pre post :
  isSystemOrVSCodePath p = true ->
  isSystemOrVSCodePath (pre ++ p ++ post) = true.
Proof.
  unfold isSystemOrVSCodePath. rewrite !existsb_exists.
  intros [b [Hin Hb]]. exists b. split; [exact Hin|].
  rewrite !toLowerCase_append. now apply includes_append.
Qed.

(** *** The npm scope *)




End NameFacts.

(** ** Store, get and update *)

Section StoreClaims.
Import TopicStore.




(** C5. Evaluation of the store on a topic whose stored timestamp is 0:
    the record exists, yet the store at time 1000 writes timestamp 1000,
    where the update of the same topic keeps 0. *)
Theorem store_resets_zero_timestamp :
  let old := {| content := "x"; tags := []; importance := 5;
                timestamp := 0; lastModified := 0 |} in
  let fs : gmap string file := {[ "shop" := Json [("bugs", old)] ]} in
  getTopicMemory fs "shop" "bugs" = Some old /\
  option_map timestamp
    (getTopicMemory (fst (storeTopicMemory true 1000 fs "shop" "bugs" "y" [] 5))
       "shop" "bugs") = Some 1000 /\
  option_map timestamp
    (getTopicMemory
       (fst (updateTopicMemory true 1000 fs "shop" "bugs" (Some "y") None None))
       "shop" "bugs") = Some 0.
Proof.
  intros old fs. split; [reflexivity|]. split.
  - rewrite TopicStoreFacts.store_timestamp. reflexivity.
  - vm_compute. reflexivity.
Qed.

End StoreClaims.

(** ** The cache of the memory store *)

Section CacheClaims.
Import MemoryStore.




End CacheClaims.

(** ** Fixed topics and the order of the topic list *)

Section TopicListClaims.
Import TopicStore.

(** C8. Initialising the fixed topics never overwrites and is idempotent:
    there are 10 fixed names; every topic already in the document is
    left as it is; every fixed name that was missing gets the placeholder
    with tags fixed-topic and the name, and importance 5; no other name
    appears; a second call changes nothing; and a record written by a
    store before the call is still there after it. *)
Theorem initializeFixedTopics_idempotent :
  length FIXED_TOPICS = 10%nat /\
  forall now fs p,
    let fs1 := fst (initializeFixedTopics true now fs p) in
    snd (initializeFixedTopics true now fs p) = Return tt /\
    (forall t m,
        getTopicMemory fs p t = Some m -> getTopicMemory fs1 p t = Some m) /\
    (forall t,
        In t FIXED_TOPICS -> getTopicMemory fs p t = None ->
        getTopicMemory fs1 p t = Some (placeholder now t) /\
        tags (placeholder now t) = ["fixed-topic"; t] /\
        importance (placeholder now t) = 5) /\
    (forall t,
        ~ In t FIXED_TOPICS -> getTopicMemory fs1 p t = getTopicMemory fs p t) /\
    (forall now', initializeFixedTopics true now' fs1 p = (fs1, Return tt)) /\
    (forall now0 now' t c tg i,
        let fs0 := fst (storeTopicMemory true now0 fs p t c tg i) in
        getTopicMemory (fst (initializeFixedTopics true now' fs0 p)) p t =
        getTopicMemory fs0 p t).
Proof.
  split; [reflexivity|]. intros now fs p fs1. subst fs1.
  split; [reflexivity|]. split; [|split; [|split; [|split]]].
  - intros t m H. rewrite TopicStoreFacts.get_after_init. now rewrite H.
  - intros t Hin H. rewrite TopicStoreFacts.get_after_init, H.
    assert (Hex : existsb (String.eqb t) FIXED_TOPICS = true).
    { apply existsb_exists. exists t. split; [exact Hin|].
      apply String.eqb_refl. }
    rewrite Hex. repeat split.
  - intros t Hnot. rewrite TopicStoreFacts.get_after_init.
    destruct (getTopicMemory fs p t); [reflexivity|].
    destruct (existsb (String.eqb t) FIXED_TOPICS) eqn:Hex; [|reflexivity].
    apply existsb_exists in Hex. destruct Hex as [x [Hx Heq]].
    apply String.eqb_eq in Heq. subst x. contradiction.
  - intros now'. apply TopicStoreFacts.init_twice.
  - intros now0 now' t c tg i fs0. subst fs0.
    rewrite TopicStoreFacts.get_after_init.
    now rewrite TopicStoreFacts.get_after_store.
Qed.

Lemma initializeFixedTopics_idempotent_witness :
  let fs1 := fst (initializeFixedTopics true 99 shop_files "shop") in
  getTopicMemory shop_files "shop" "bugs" = Some bugs_record /\
  getTopicMemory fs1 "shop" "bugs" = Some bugs_record /\
  getTopicMemory shop_files "shop" "summary" = None /\
  getTopicMemory fs1 "shop" "summary" = Some (placeholder 99 "summary") /\
  initializeFixedTopics true 100 fs1 "shop" = (fs1, Return tt).
Proof.
  intros fs1.
  destruct initializeFixedTopics_idempotent as [_ H].
  destruct (H 99 shop_files "shop") as [_ [Hkeep [Hnew [_ [Htwice _]]]]].
  assert (Hold : getTopicMemory shop_files "shop" "bugs" = Some bugs_record)
    by reflexivity.
  assert (Hnone : getTopicMemory shop_files "shop" "summary" = None)
    by reflexivity.
  split; [exact Hold|]. split; [exact (Hkeep _ _ Hold)|].
  split; [exact Hnone|]. split.
  - apply Hnew; [|exact Hnone]. simpl. tauto.
  - apply Htwice.
Defined.




End TopicListClaims.

(** ** Ranked search *)

Section SearchClaims.
Import TopicStore.

(** C1. For every project document, query and limit that is not
    negative, the search gives each topic 3 points when the content
    contains the query, 2 when some tag does and 1 when the topic name
    does, ignoring case; the ranking holds exactly the topics with a
    positive total; it is ordered by descending score, then descending
    importance; topics with the same score and importance stay in the
    order of the stored document; and the result is the first [limit]
    entries of the ranking. *)
Theorem search_scores_ranks_truncates :
  forall fs p query limit,
    0 <= limit ->
    let topics := listAllTopicMemories fs p in
    let hits :=
      List.filter (fun r => score r >? 0) (scored_entries query topics) in
    let ranked := rankTopicMemories fs p query in
    let result := searchTopicMemories fs p query limit in
    (forall topicName m,
        entry_score (JsString.toLowerCase query) topicName m =
        spec_score query topicName m) /\
    Permutation ranked hits /\
    StronglySorted ranks_before ranked /\
    (forall s i,
        List.filter (has_rank s i) ranked = List.filter (has_rank s i) hits) /\
    result = firstn (Z.to_nat limit) ranked /\
    Z.of_nat (length result) <= limit.
Proof.
  intros fs p query limit Hl topics hits ranked result.
  assert (Hres : result = firstn (Z.to_nat limit) ranked).
  { apply SearchFacts.array_slice0_firstn. exact Hl. }
  split; [intros; apply SearchFacts.entry_score_spec|].
  split; [apply SearchFacts.rank_perm|].
  split; [apply SearchFacts.rank_sorted|].
  split; [intros; apply SearchFacts.rank_stable|].
  split; [exact Hres|].
  rewrite Hres, length_firstn. lia.
Qed.

Lemma search_scores_ranks_truncates_witness :
  let entry c tg i :=
    {| content := c; tags := tg; importance := i;
       timestamp := 1; lastModified := 1 |} in
  let fs : gmap string file :=
    {[ "shop" :=
         Json [ ("bugs", entry "CPF validation rejects accents" ["checkout"] 9);
                ("todo", entry "review cpf mask" ["CPF"] 4);
                ("notes", entry "nothing here" ["cpf"] 9);
                ("misc", entry "unrelated" [] 10) ] ]} in
  0 <= 2 /\
  map topic (searchTopicMemories fs "shop" "CPF" 2) = ["todo"; "bugs"] /\
  map score (searchTopicMemories fs "shop" "CPF" 2) = [5; 3] /\
  Z.of_nat (length (searchTopicMemories fs "shop" "CPF" 2)) <= 2.
Proof.
  intros mk fs.
  pose proof (search_scores_ranks_truncates fs "shop" "CPF" 2 ltac:(lia)) as H.
  split; [lia|]. split; [reflexivity|]. split; [reflexivity|].
  apply H.
Defined.

(** C10. For every project and every limit that is at least the number of
    stored topics, the search for the empty query returns one entry for
    every stored topic, each with score 4 when the topic has no tag and 6
    when it has one, so at least 4. *)
Theorem search_empty_query_returns_all :
  forall fs p limit,
    Z.of_nat (length (listAllTopicMemories fs p)) <= limit ->
    let topics := listAllTopicMemories fs p in
    let result := searchTopicMemories fs p "" limit in
    Permutation (map (fun r => (topic r, memory r)) result) topics /\
    length result = length topics /\
    forall r, In r result ->
      score r = match tags (memory r) with [] => 4 | _ => 6 end /\
      4 <= score r.
Proof.
  intros fs p limit Hl topics result.
  assert (Hhits : List.filter (fun r => score r >? 0) (scored_entries "" topics)
                  = scored_entries "" topics).
  { apply forallb_filter_id. apply forallb_forall. intros r Hr.
    unfold scored_entries in Hr. apply in_map_iff in Hr.
    destruct Hr as [e [<- _]]. simpl. rewrite SearchFacts.spec_score_empty.
    now destruct (tags (snd e)). }
  assert (Hperm : Permutation (rankTopicMemories fs p "") (scored_entries "" topics)).
  { rewrite <- Hhits. apply SearchFacts.rank_perm. }
  assert (Hlen : length (rankTopicMemories fs p "") = length topics).
  { rewrite (Permutation_length Hperm). unfold scored_entries.
    apply length_map. }
  assert (Hres : result = rankTopicMemories fs p "").
  { apply SearchFacts.array_slice0_all. rewrite Hlen. exact Hl. }
  rewrite Hres. split; [|split].
  - rewrite (Permutation_map _ Hperm). unfold scored_entries.
    rewrite map_map. simpl.
    rewrite (map_ext _ (fun e => e)); [now rewrite map_id|].
    now intros [n m].
  - exact Hlen.
  - intros r Hr. apply (Permutation_in _ Hperm) in Hr.
    unfold scored_entries in Hr. apply in_map_iff in Hr.
    destruct Hr as [e [<- _]]. simpl. rewrite SearchFacts.spec_score_empty.
    destruct (tags (snd e)); split; (reflexivity || lia).
Qed.

Lemma search_empty_query_returns_all_witness :
  let entry c tg i :=
    {| content := c; tags := tg; importance := i;
       timestamp := 1; lastModified := 1 |} in
  let fs : gmap string file :=
    {[ "shop" :=
         Json [ ("bugs", entry "CPF validation" ["checkout"] 9);
                ("todo", entry "" [] 4) ] ]} in
  Z.of_nat (length (listAllTopicMemories fs "shop")) <= 2 /\
  map score (searchTopicMemories fs "shop" "" 2) = [6; 4] /\
  length (searchTopicMemories fs "shop" "" 2) =
  length (listAllTopicMemories fs "shop").
Proof.
  intros mk fs.
  assert (Hl : Z.of_nat (length (listAllTopicMemories fs "shop")) <= 2).
  { vm_compute. discriminate. }
  pose proof (search_empty_query_returns_all fs "shop" 2 Hl) as H.
  split; [exact Hl|]. split; [reflexivity|].
  apply H.
Defined.

End SearchClaims.

(** ** Cleanup of old memories *)

Section CleanupClaims.
Import MemoryStore.

Lemma scenario_store_wf : disk_wf scenario_store.
Proof.
  intros key m. unfold scenario_store. simpl. intros H.
  apply lookup_insert_Some in H. destruct H as [[<- <-]|[_ H]]; [reflexivity|].
  apply lookup_insert_Some in H. destruct H as [[<- <-]|[_ H]]; [reflexivity|].
  now rewrite lookup_empty in H.
Qed.

(** C7, as stated, fails: when the file of an old memory of importance 3
    cannot be unlinked, the cleanup leaves the memory in place and counts
    nothing.  And when a file does not hold the id it is named by, the
    cleanup counts a deletion and removes nothing. *)
Lemma cleanup_skips_failed_unlink :
  let r := cleanupOldMemories (fun _ => false) (90 * day) scenario_store
             (30 * day) in
  let r' := cleanupOldMemories (fun _ => true) (90 * day) misnamed_store
              (30 * day) in
  (disk_wf scenario_store /\
   (exists m,
       disk scenario_store !! "mem-old-minor" = Some m /\
       timestamp m < 90 * day - 30 * day /\ importance m < 5 /\
       disk (fst r) !! "mem-old-minor" = Some m) /\
   snd r = 0)
  /\
  (disk (fst r') = disk misnamed_store /\ snd r' = 1).
Proof.
  intros r r'. split; [split; [exact scenario_store_wf|split]|split].
  - eexists. split; [reflexivity|]. split; [reflexivity|].
    split; [reflexivity|]. vm_compute. reflexivity.
  - vm_compute. reflexivity.
  - vm_compute. reflexivity.
  - vm_compute. reflexivity.
Qed.

(** C7, amended. For every maxAge and every set of memories stored under
    their own id, the cleanup removes exactly the memories whose timestamp is older than
    now - maxAge, whose importance is strictly below 5 and whose file can
    be unlinked; it leaves every other memory as it is and creates none;
    a removed memory is no longer returned by a read; the cleanup returns
    the number of memories removed; every memory of importance 5 or more
    is retained whatever its age, and read as before. *)
Theorem cleanup_removes_old_unimportant :
  forall unlink_ok now st maxAge,
    disk_wf st ->
    let r := cleanupOldMemories unlink_ok now st maxAge in
    (forall key m,
        disk st !! key = Some m ->
        (disk (fst r) !! key = None <->
         timestamp m < now - maxAge /\ importance m < 5 /\
         unlink_ok (id m) = true) /\
        (disk (fst r) !! key = None -> snd (getMemory (fst r) key) = None) /\
        (disk (fst r) !! key = None \/ disk (fst r) !! key = Some m)) /\
    (forall key, disk st !! key = None -> disk (fst r) !! key = None) /\
    snd r = Z.of_nat (length (List.filter (cleanup_removes unlink_ok now maxAge)
                                (loadAllMemories st))) /\
    (forall key m,
        disk st !! key = Some m -> 5 <= importance m ->
        disk (fst r) !! key = Some m /\
        snd (getMemory (fst r) key) = snd (getMemory st key)).
Proof.
  intros u now st maxAge Hwf r.
  destruct (MemoryStoreFacts.cleanup_spec u now st maxAge Hwf) as [Hn [Hc Hd]].
  fold r in Hn, Hc, Hd.
  assert (Hrem : forall m,
             cleanup_removes u now maxAge m = true <->
             timestamp m < now - maxAge /\ importance m < 5 /\ u (id m) = true).
  { intros m. unfold cleanup_removes.
    rewrite !andb_true_iff, !Z.ltb_lt. tauto. }
  split; [|split; [|split]].
  - intros key m Hm. rewrite MemoryStoreFacts.getMemory_result.
    rewrite (Hc key m Hm), Hd, Hm.
    destruct (cleanup_removes u now maxAge m) eqn:E.
    + split; [|split; [|now left]].
      * split; [intros _; now apply Hrem|reflexivity].
      * intros _. unfold cleanup_removes in E.
        apply andb_true_iff in E. destruct E as [E _].
        unfold cleanup_candidate. now rewrite E.
    + split; [|split; [discriminate|now right]].
      split; [discriminate|]. intros H. apply Hrem in H. congruence.
  - intros key Hk. now rewrite Hd, Hk.
  - exact Hn.
  - intros key m Hm Hi.
    assert (Hcand : cleanup_candidate (now - maxAge) m = false).
    { unfold cleanup_candidate. apply andb_false_iff. right.
      apply Z.ltb_ge. exact Hi. }
    assert (Hkeep : cleanup_removes u now maxAge m = false).
    { unfold cleanup_removes. unfold cleanup_candidate in Hcand.
      now rewrite Hcand. }
    rewrite !MemoryStoreFacts.getMemory_result.
    rewrite (Hc key m Hm), Hd, Hm, Hcand, Hkeep. now split.
Qed.

Lemma cleanup_removes_old_unimportant_witness :
  let r := cleanupOldMemories (fun _ => true) (90 * day) scenario_store
             (30 * day) in
  disk_wf scenario_store /\
  disk (fst r) !! "mem-old-minor" = None /\
  (exists m, disk (fst r) !! "mem-old-major" = Some m /\ importance m = 7) /\
  snd r = 1.
Proof.
  intros r.
  pose proof (cleanup_removes_old_unimportant (fun _ => true) (90 * day)
                scenario_store (30 * day) scenario_store_wf)
    as [Hdel [_ [Hcount Hkeep]]].
  split; [exact scenario_store_wf|]. split; [|split].
  - destruct (Hdel "mem-old-minor" _ eq_refl) as [Hiff _].
    apply Hiff. repeat split; reflexivity.
  - eexists. split.
    + apply Hkeep; [reflexivity|]. simpl. lia.
    + reflexivity.
  - fold r in Hcount. rewrite Hcount. vm_compute. reflexivity.
Defined.

End CleanupClaims.

(** ** Project detection *)

Section DetectionClaims.
Import Identity.

(** C3, as stated, fails: when every detection method throws, in a
    working directory named billing without project marker, the result
    is the identity billing with method Fallback, and not the identity
    unknown-project with method Error Fallback. *)
Lemma all_methods_failing_gives_fallback :
  (forall c, In c (methods failing_env) -> cand_name c = None) /\
  detectProjectNameWithSource failing_env =
    {| name := "billing"; method := "Fallback";
       source := "directory-basename-fallback" |} /\
  detectProjectNameWithSource failing_env <> error_fallback.
Proof.
  split; [|split].
  - intros c Hc. unfold methods in Hc. cbn [In] in Hc.
    repeat (destruct Hc as [<-|Hc]; [reflexivity|]). contradiction.
  - vm_compute. reflexivity.
  - vm_compute. discriminate.
Qed.

(** C3, amended. Detection never throws: it returns what the cascade
    returns, or the error fallback when an error escapes the cascade; a
    detection method that throws counts as one that finds nothing, and
    the cascade goes on; the identity unknown-project with method Error
    Fallback is the result exactly when an error escapes; and when no
    method gives a usable name the result is the directory-name identity
    if the working directory qualifies, else the identity with method
    Fallback, whose name is the sanitized directory name when valid and
    unknown-project when not, unless reading the working directory
    throws. *)
Theorem detection_recovers_and_falls_back :
  forall e,
    (cascade e = Return (detectProjectNameWithSource e) \/
     exists msg, cascade e = Throw msg /\
                 detectProjectNameWithSource e = error_fallback) /\
    detectProjectNameWithSource (quiet_env e) = detectProjectNameWithSource e /\
    (method (detectProjectNameWithSource e) = "Error Fallback" <->
     exists msg, cascade e = Throw msg) /\
    ((forall c, In c (methods e) -> usable c = None) ->
     detectProjectNameWithSource e =
     match cwd e with
     | Return currentDir =>
         if directory_name_usable e currentDir
         then directory_identity e currentDir
         else fallback_identity (basename e currentDir)
     | Throw _ => error_fallback
     end) /\
    (forall dirName,
        method (fallback_identity dirName) = "Fallback" /\
        source (fallback_identity dirName) = "directory-basename-fallback" /\
        name (fallback_identity dirName) =
          if negb (String.eqb dirName "") && isValidProjectName dirName
          then sanitizeProjectName dirName else "unknown-project").
Proof.
  intros e. split; [|split; [|split; [|split]]].
  - unfold detectProjectNameWithSource.
    destruct (cascade e) as [r|msg]; [now left|right; now exists msg].
  - unfold detectProjectNameWithSource.
    now rewrite IdentityFacts.cascade_quiet.
  - apply IdentityFacts.error_fallback_iff.
  - intros Hall. unfold detectProjectNameWithSource.
    rewrite IdentityFacts.cascade_nothing_found by exact Hall.
    now destruct (cwd e).
  - intros dirName. unfold fallback_identity.
    cbn [method source name]. split; [reflexivity|]. split; [reflexivity|].
    destruct (negb (String.eqb dirName "") && isValidProjectName dirName);
      [reflexivity|].
    vm_compute. reflexivity.
Qed.

Lemma detection_recovers_and_falls_back_witness :
  (forall c, In c (methods failing_env) -> usable c = None) /\
  detectProjectNameWithSource failing_env =
    fallback_identity (basename failing_env "/work/billing") /\
  detectProjectNameWithSource (quiet_env failing_env) =
    detectProjectNameWithSource failing_env.
Proof.
  assert (Hall : forall c, In c (methods failing_env) -> usable c = None).
  { intros c Hc. unfold methods in Hc. cbn [In] in Hc.
    repeat (destruct Hc as [<-|Hc]; [reflexivity|]). contradiction. }
  destruct (detection_recovers_and_falls_back failing_env)
    as [_ [Hquiet [_ [Hnone _]]]].
  split; [exact Hall|]. split; [|exact Hquiet].
  rewrite (Hnone Hall). reflexivity.
Defined.

End DetectionClaims.

(** ** Further properties of the topic store *)

Section TopicExtras.
Import TopicProject TopicStore.











(** X8. Writing to a topic that exists does not move it: a store on an
    existing topic, and any update, leave the topic list as it was. *)
Theorem rewrite_keeps_topic_order :
  forall w now fs p t old,
    getTopicMemory fs p t = Some old ->
    (forall c tg i,
        listTopics (fst (storeTopicMemory w now fs p t c tg i)) p =
        listTopics fs p) /\
    (forall c tg i,
        listTopics (fst (updateTopicMemory w now fs p t c tg i)) p =
        listTopics fs p).
Proof.
  intros w now fs p t old Hold. unfold getTopicMemory in Hold. split.
  - intros c tg i. destruct w; [|reflexivity].
    unfold listTopics. rewrite TopicStoreFacts.load_after_store.
    apply JsObjectFacts.keys_set_present. congruence.
  - intros c tg i. destruct w.
    + unfold listTopics, updateTopicMemory. rewrite Hold.
      destruct old as [oc ot oi ots olm]. cbn [saveProject fst].
      rewrite TopicStoreFacts.load_saved
        by apply JsObjectFacts.ordered_set, TopicStoreFacts.loadProject_ordered.
      apply JsObjectFacts.keys_set_present. congruence.
    + unfold updateTopicMemory. rewrite Hold. now destruct old.
Qed.

Lemma rewrite_keeps_topic_order_witness :
  let fs := fst (storeTopicMemory true 30 shop_files "shop" "1" "x" [] 5) in
  getTopicMemory fs "shop" "bugs" = Some bugs_record /\
  listTopics fs "shop" = ["1"; "bugs"] /\
  listTopics (fst (storeTopicMemory true 40 fs "shop" "bugs" "y" [] 2)) "shop"
    = ["1"; "bugs"].
Proof.
  intros fs.
  assert (Hold : getTopicMemory fs "shop" "bugs" = Some bugs_record)
    by reflexivity.
  assert (Hlist : listTopics fs "shop" = ["1"; "bugs"]) by reflexivity.
  destruct (rewrite_keeps_topic_order true 40 fs "shop" "bugs" bugs_record Hold)
    as [Hstore _].
  split; [exact Hold|]. split; [exact Hlist|].
  rewrite Hstore. exact Hlist.
Defined.

End TopicExtras.

(** ** Project information, project files and search results *)

Section TopicInfoExtras.
Import TopicProject TopicStore.

(** X5. The project information is absent exactly when the project has
    no file.  Otherwise it carries the project name, counts the topics
    of the list (twice, as topics and as memories), gives a creation
    time that is at most now and at most every topic's timestamp, a
    modification time that is at least 0 and at least every topic's
    lastModified, and, for a project without topics, now, 0 and total
    importance 0; when the importances are within 1..10 the total lies
    between the count and ten times the count. *)
Theorem project_info_summarises_topics :
  forall now fs p,
    (getProjectInfo now fs p = None <-> fs !! p = None) /\
    forall info,
      getProjectInfo now fs p = Some info ->
      TopicProject.name info = p /\
      topicCount info = Z.of_nat (length (listTopics fs p)) /\
      memoryCount info = topicCount info /\
      createdAt info <= now /\
      0 <= TopicProject.lastModified info /\
      (forall t m,
          getTopicMemory fs p t = Some m ->
          createdAt info <= timestamp m /\
          lastModified m <= TopicProject.lastModified info) /\
      (listTopics fs p = [] ->
       createdAt info = now /\ TopicProject.lastModified info = 0 /\
       totalImportance info = 0) /\
      (importance_in_range fs p ->
       topicCount info <= totalImportance info <= 10 * topicCount info).
Proof.
  intros now fs p. unfold getProjectInfo. split.
  - destruct (fs !! p); split; congruence.
  - intros info Hinfo. destruct (fs !! p) as [f|]; [|discriminate].
    injection Hinfo as <-.
    cbn [TopicProject.name topicCount memoryCount createdAt
         TopicProject.lastModified totalImportance].
    set (topics := loadProject fs p).
    split; [reflexivity|]. split; [reflexivity|].
    split; [unfold JsObject.keys; now rewrite !length_map|].
    split; [apply (proj1 (ListingFacts.fold_min_le _ _))|].
    split; [apply (proj1 (ListingFacts.fold_max_ge _ _))|].
    split; [|split].
    + intros t m Hm. unfold getTopicMemory in Hm. fold topics in Hm.
      apply JsObjectFacts.get_Some_in in Hm.
      assert (Hin : In m (map snd topics)).
      { apply in_map_iff. now exists (t, m). }
      split.
      * apply (proj2 (ListingFacts.fold_min_le _ _)). now apply in_map.
      * apply (proj2 (ListingFacts.fold_max_ge _ _)). now apply in_map.
    + unfold listTopics. fold topics. unfold JsObject.keys.
      destruct topics; [|discriminate]. now intros _.
    + intros Hrange.
      pose proof (ListingFacts.fold_sum_bounds importance (map snd topics) 1 10)
        as Hsum.
      rewrite length_map in Hsum. unfold JsObject.keys. rewrite length_map.
      assert (Hall : forall m, In m (map snd topics) -> 1 <= importance m <= 10).
      { intros m Hm. apply in_map_iff in Hm. destruct Hm as [[t m'] [<- Hin]].
        apply (Hrange t). unfold getTopicMemory. fold topics.
        apply JsObjectFacts.get_in_nodup; [|exact Hin].
        apply TopicStoreFacts.loadProject_ordered. }
      specialize (Hsum Hall 0). lia.
Qed.

Lemma project_info_summarises_topics_witness :
  exists info,
    getProjectInfo 99 shop_files "shop" = Some info /\
    topicCount info = 1 /\ createdAt info = 10 /\
    TopicProject.lastModified info = 20 /\ totalImportance info = 9 /\
    getProjectInfo 99 shop_files "blog" = None.
Proof.
  destruct (project_info_summarises_topics 99 shop_files "blog") as [[_ Hnone] _].
  destruct (project_info_summarises_topics 99 shop_files "shop") as [_ Hinfo].
  eexists. split; [reflexivity|].
  specialize (Hinfo _ eq_refl). destruct Hinfo as [_ [Hcount _]].
  split; [exact Hcount|]. split; [reflexivity|]. split; [reflexivity|].
  split; [reflexivity|]. apply Hnone. reflexivity.
Defined.

(** X7. The listing of projects undoes the naming of project files for
    every project name without ".json" in it: if the file of such a
    project is in the directory, the project is listed under its name.
    A name with ".json" inside is not given back: the project named
    a.json followed by b is listed as a followed by b and ".json",
    because only the first ".json" of the file name is removed. *)
Theorem listed_projects_undo_file_names :
  forall files a,
    JsString.includes a ".json" = false ->
    (In (project_file_name a) files -> In a (listProjects (Return files))) /\
    (forall b,
        In (project_file_name (a ++ ".json" ++ b)) files ->
        In (a ++ b ++ ".json")%string (listProjects (Return files))).
Proof.
  intros files a Ha.
  assert (Hlist : forall f n,
             In f files -> endsWith f ".json" = true ->
             replace_first f ".json" "" = n ->
             In n (listProjects (Return files))).
  { intros f n Hin Hend Hrep. unfold listProjects. apply in_map_iff.
    exists f. split; [exact Hrep|]. apply filter_In. now split. }
  split.
  - intros Hin. unfold project_file_name in Hin.
    apply (Hlist (a ++ ".json")%string); [exact Hin| |].
    + apply ListingFacts.endsWith_append.
    + rewrite <- (ListingFacts.append_nil_r (a ++ ".json")).
      rewrite ListingFacts.append_assoc.
      rewrite ListingFacts.replace_first_json by exact Ha.
      apply ListingFacts.append_nil_r.
  - intros b Hin. unfold project_file_name in Hin.
    apply (Hlist ((a ++ ".json" ++ b) ++ ".json")%string); [exact Hin| |].
    + apply ListingFacts.endsWith_append.
    + rewrite ListingFacts.append_assoc.
      change ((".json" ++ b) ++ ".json")%string
        with (".json" ++ (b ++ ".json"))%string.
      now rewrite ListingFacts.replace_first_json by exact Ha.
Qed.

Lemma listed_projects_undo_file_names_witness :
  let files := ["shop.json"; "notes.txt"; "v1.json-old.json"; "shop"] in
  JsString.includes "shop" ".json" = false /\
  JsString.includes "v1" ".json" = false /\
  In "shop" (listProjects (Return files)) /\
  In "v1-old.json" (listProjects (Return files)) /\
  listProjects (Return files) = ["shop"; "v1-old.json"].
Proof.
  intros files.
  assert (H1 : JsString.includes "shop" ".json" = false) by reflexivity.
  assert (H2 : JsString.includes "v1" ".json" = false) by reflexivity.
  destruct (listed_projects_undo_file_names files "shop" H1) as [Hshop _].
  destruct (listed_projects_undo_file_names files "v1" H2) as [_ Hv1].
  split; [exact H1|]. split; [exact H2|]. split; [|split].
  - apply Hshop. simpl. tauto.
  - apply (Hv1 "-old"). simpl. tauto.
  - reflexivity.
Defined.

(** X9. Whatever the limit, also 0 or negative, every entry of a search
    result is a topic of the document with its stored record, carries
    the points of the scoring rule, between 1 and 6, and no topic occurs
    twice; the result is a leading part of the full ranking. *)
Theorem search_results_are_stored_topics :
  forall fs p query limit,
    let result := searchTopicMemories fs p query limit in
    Forall (fun r =>
              getTopicMemory fs p (topic r) = Some (memory r) /\
              score r = spec_score query (topic r) (memory r) /\
              1 <= score r <= 6) result /\
    List.NoDup (map topic result) /\
    exists n, result = firstn n (rankTopicMemories fs p query).
Proof.
  intros fs p query limit result.
  set (topics := loadProject fs p).
  set (hits := List.filter (fun r => score r >? 0) (scored_entries query topics)).
  assert (Hperm : Permutation (rankTopicMemories fs p query) hits)
    by apply SearchFacts.rank_perm.
  assert (Hprefix : exists n, result = firstn n (rankTopicMemories fs p query)).
  { subst result. unfold searchTopicMemories, array_slice0. eauto. }
  assert (Hkeys : map topic (scored_entries query topics) = JsObject.keys topics).
  { unfold scored_entries, JsObject.keys. rewrite map_map. reflexivity. }
  assert (Hnd : List.NoDup (map topic hits)).
  { apply ListingFacts.nodup_map_filter. rewrite Hkeys.
    apply TopicStoreFacts.loadProject_ordered. }
  destruct Hprefix as [n Hn]. split; [|split; [|now exists n]].
  - apply List.Forall_forall. intros r Hr. rewrite Hn in Hr.
    apply ListingFacts.in_firstn in Hr.
    apply (Permutation_in _ Hperm) in Hr. apply filter_In in Hr.
    destruct Hr as [Hr Hpos]. unfold scored_entries in Hr.
    apply in_map_iff in Hr. destruct Hr as [[t m] [<- Hin]].
    cbn [topic memory score fst snd] in *. split; [|split; [reflexivity|]].
    + unfold getTopicMemory. apply JsObjectFacts.get_in_nodup; [|exact Hin].
      apply TopicStoreFacts.loadProject_ordered.
    + apply Z.gtb_lt in Hpos. split; [lia|]. unfold spec_score.
      destruct (contains_ci (content m) query);
        destruct (existsb _ (tags m)); destruct (contains_ci t query); lia.
  - rewrite Hn, <- firstn_map. apply ListingFacts.nodup_firstn.
    eapply Permutation_NoDup; [|exact Hnd].
    apply Permutation_map. now symmetry.
Qed.

End TopicInfoExtras.

(** ** Further properties of the memory store *)

Section MemoryExtras.
Import MemoryStore MemoryQueries.

(** X10. An update returns false exactly when the id is neither in the
    cache nor on disk, and then changes nothing.  When the memory is
    found and the write succeeds it returns true, a read of the id gives
    the record with the given fields replaced, the importance clamped
    into 1..10 and the id, timestamp and project kept, and that record
    is in the file named by its id; when the write fails it throws. *)
Theorem update_merges_or_reports_missing :
  forall w st key c tg i,
    (snd (updateMemory w st key c tg i) = Return false <->
     cache st !! key = None /\ disk st !! key = None) /\
    (snd (getMemory st key) = None ->
     fst (updateMemory w st key c tg i) = st) /\
    (forall m,
        snd (getMemory st key) = Some m ->
        let merged :=
          {| id := id m;
             content := match c with Some x => x | None => content m end;
             tags := match tg with Some x => x | None => tags m end;
             timestamp := timestamp m;
             importance :=
               match i with
               | Some x => clamp_importance x
               | None => importance m
               end;
             projectContext := projectContext m |} in
        snd (updateMemory true st key c tg i) = Return true /\
        snd (getMemory (fst (updateMemory true st key c tg i)) key)
          = Some merged /\
        disk (fst (updateMemory true st key c tg i)) !! id m = Some merged /\
        (i <> None -> 1 <= importance merged <= 10) /\
        snd (updateMemory false st key c tg i) = Throw (PersistFailed (id m))).
Proof.
  intros w st key c tg i. unfold updateMemory.
  pose proof (MemoryQueriesFacts.getMemory_none st key) as Hnone.
  pose proof (MemoryQueriesFacts.getMemory_none_state st key) as Hstate.
  destruct (getMemory st key) as [st1 [m|]] eqn:Eg; cbn [fst snd] in *.
  - destruct m as [mid mc mt mts mi mp]. split; [|split].
    + split.
      * destruct w; discriminate.
      * intros H. apply Hnone in H. discriminate.
    + discriminate.
    + intros m' [= <-]. cbn [id content tags timestamp importance projectContext].
      split; [reflexivity|]. split; [|split; [|split]].
      * unfold getMemory. cbn [persistMemory fst cache cache_set].
        now rewrite lookup_insert_eq.
      * cbn. now rewrite lookup_insert_eq.
      * destruct i; [intros _; apply TopicStoreFacts.clamp_importance_range|].
        intros H. now destruct H.
      * reflexivity.
  - split; [|split].
    + split; [intros _; now apply Hnone|reflexivity].
    + intros _. now apply Hstate.
    + discriminate.
Qed.

Lemma update_merges_or_reports_missing_witness :
  let st := fst (storeMemory true 5 "mem-a" (open_store ∅ "shop")
                   "draft" ["x"] 3) in
  (exists m, snd (getMemory st "mem-a") = Some m /\ importance m = 3) /\
  (exists m,
      snd (getMemory (fst (updateMemory true st "mem-a" None None (Some 40)))
             "mem-a") = Some m /\
      content m = "draft" /\ importance m = 10 /\ timestamp m = 5) /\
  snd (updateMemory true st "mem-b" (Some "y") None None) = Return false.
Proof.
  intros st.
  destruct (update_merges_or_reports_missing true st "mem-a" None None (Some 40))
    as [_ [_ Hfound]].
  destruct (update_merges_or_reports_missing true st "mem-b" (Some "y") None None)
    as [[_ Hmissing] _].
  split; [eexists; split; reflexivity|]. split.
  - specialize (Hfound _ eq_refl). destruct Hfound as [_ [Hget _]].
    eexists. split; [exact Hget|]. repeat split.
  - apply Hmissing. split; reflexivity.
Defined.



(** X12. For every limit that is not negative, a search of the memories
    returns the first limit entries of a ranking that holds exactly the
    stored memories whose content or one of whose tags contains the
    query, ignoring case, and that carry one of the wanted tags when
    some are given; the ranking is by descending importance, then by
    descending timestamp.  Every result is a record on disk. *)
Theorem memory_search_filters_and_ranks :
  forall st query wanted limit,
    0 <= limit ->
    let ranked := rankMemories st query wanted in
    let result := searchMemories st query wanted limit in
    Permutation ranked
      (List.filter
         (fun m =>
            (TopicStore.contains_ci (content m) query
             || existsb (fun tag => TopicStore.contains_ci tag query) (tags m))
            && match wanted with
               | None | Some [] => true
               | Some ts => shares_tag ts m
               end)
         (loadAllMemories st)) /\
    StronglySorted ranks_before ranked /\
    result = firstn (Z.to_nat limit) ranked /\
    Z.of_nat (length result) <= limit /\
    Forall (fun m => exists key, disk st !! key = Some m) result.
Proof.
  intros st query wanted limit Hl ranked result.
  assert (Hres : result = firstn (Z.to_nat limit) ranked).
  { apply SearchFacts.array_slice0_firstn. exact Hl. }
  assert (Hperm := MemoryQueriesFacts.rankMemories_perm st query wanted).
  split; [|split; [|split; [|split]]].
  - unfold ranked. rewrite Hperm.
    erewrite filter_ext; [reflexivity|].
    intros m. unfold search_match, TopicStore.contains_ci.
    destruct wanted as [[|t ts]|]; reflexivity.
  - apply MemoryQueriesFacts.rankMemories_sorted.
  - exact Hres.
  - rewrite Hres, length_firstn. lia.
  - apply List.Forall_forall. intros m Hm. rewrite Hres in Hm.
    apply ListingFacts.in_firstn in Hm.
    apply (Permutation_in _ Hperm) in Hm. apply filter_In in Hm.
    apply MemoryQueriesFacts.in_loadAllMemories. tauto.
Qed.

Lemma memory_search_filters_and_ranks_witness :
  0 <= 1 /\
  map id (searchMemories scenario_store "D" None 1) = ["mem-old-major"] /\
  Z.of_nat (length (searchMemories scenario_store "D" None 1)) <= 1.
Proof.
  pose proof (memory_search_filters_and_ranks scenario_store "D" None 1
                ltac:(lia)) as [_ [_ [_ [Hlen _]]]].
  split; [lia|]. split; [reflexivity|exact Hlen].
Defined.

(** X13. The listings agree with each other: the recent memories are
    the listing without tags sorted by timestamp; every sort key other
    than importance sorts by timestamp; an empty tag list lists like no
    tag list, yet the memories by tags of an empty list are none; and
    for a tag list that is not empty and a limit that reaches all
    memories, the listing by importance is the memories by tags. *)
Theorem memory_listings_agree :
  forall st limit sortBy wanted,
    getRecentMemories st limit = listMemories st None limit "timestamp" /\
    listMemories st wanted limit sortBy =
      listMemories st wanted limit
        (if String.eqb sortBy "importance" then "importance" else "timestamp") /\
    listMemories st (Some []) limit sortBy = listMemories st None limit sortBy /\
    getMemoriesByTags st [] = [] /\
    (forall ts,
        ts <> [] ->
        Z.of_nat (length (loadAllMemories st)) <= limit ->
        listMemories st (Some ts) limit "importance" = getMemoriesByTags st ts).
Proof.
  intros st limit sortBy wanted. split; [|split; [|split; [|split]]].
  - reflexivity.
  - unfold listMemories. f_equal.
    apply MemoryQueriesFacts.array_sort_ext.
    apply MemoryQueriesFacts.list_order_default.
  - reflexivity.
  - unfold getMemoriesByTags.
    assert (H : List.filter (shares_tag []) (loadAllMemories st) = []).
    { induction (loadAllMemories st) as [|m l IH]; [reflexivity|exact IH]. }
    now rewrite H.
  - intros ts Hts Hl. unfold listMemories, getMemoriesByTags.
    destruct ts as [|t ts]; [congruence|]. cbn [length Nat.ltb Nat.leb].
    rewrite SearchFacts.array_slice0_all.
    + apply MemoryQueriesFacts.array_sort_ext. reflexivity.
    + rewrite (Permutation_length (SearchFacts.array_sort_perm _ _)).
      pose proof (filter_length_le (shares_tag (t :: ts)) (loadAllMemories st)).
      lia.
Qed.

Lemma memory_listings_agree_witness :
  ["mem-old-major"] <> @nil string /\
  Z.of_nat (length (loadAllMemories scenario_store)) <= 5 /\
  listMemories scenario_store (Some ["t"]) 5 "importance" =
  getMemoriesByTags scenario_store ["t"] /\
  map id (getRecentMemories scenario_store 1) = ["mem-old-minor"].
Proof.
  assert (H1 : ["t"] <> @nil string) by discriminate.
  assert (H2 : Z.of_nat (length (loadAllMemories scenario_store)) <= 5).
  { vm_compute. discriminate. }
  destruct (memory_listings_agree scenario_store 5 "importance" None)
    as [_ [_ [_ [_ H]]]].
  split; [discriminate|]. split; [exact H2|]. split; [exact (H ["t"] H1 H2)|].
  reflexivity.
Defined.

(** X14. The statistics count the memory files; the oldest and newest
    timestamps are absent exactly when there is no memory, and otherwise
    they bound the timestamp of every memory and each is the timestamp
    of some memory. *)
Theorem statistics_bound_timestamps :
  forall dir st,
    let s := getStatistics dir st in
    totalMemories s = Z.of_nat (size (disk st)) /\
    (oldestMemory s = None <-> disk st = ∅) /\
    (newestMemory s = None <-> disk st = ∅) /\
    forall o n,
      oldestMemory s = Some o -> newestMemory s = Some n ->
      (forall key m, disk st !! key = Some m -> o <= timestamp m <= n) /\
      (exists key m, disk st !! key = Some m /\ timestamp m = o) /\
      (exists key m, disk st !! key = Some m /\ timestamp m = n).
Proof.
  intros dir st s. subst s. unfold getStatistics.
  cbn [totalMemories oldestMemory newestMemory].
  assert (Hlen : length (loadAllMemories st) = size (disk st)).
  { unfold loadAllMemories. rewrite length_map. apply length_map_to_list. }
  assert (Hempty : map timestamp (loadAllMemories st) = [] <-> disk st = ∅).
  { unfold loadAllMemories. rewrite <- map_to_list_empty_iff.
    destruct (map_to_list (disk st)); simpl; split; congruence. }
  split; [now rewrite Hlen|].
  destruct (map timestamp (loadAllMemories st)) as [|t ts] eqn:E.
  - split; [tauto|]. split; [tauto|]. discriminate.
  - split; [split; [discriminate|]|split; [split; [discriminate|]|]].
    + intros H. apply Hempty in H. discriminate.
    + intros H. apply Hempty in H. discriminate.
    + intros o n [= <-] [= <-].
      assert (Hin : forall key m, disk st !! key = Some m ->
                                  In (timestamp m) (t :: ts)).
      { intros key m Hm. rewrite <- E. apply in_map.
        apply MemoryQueriesFacts.in_loadAllMemories. now exists key. }
      assert (Hex : forall x, In x (t :: ts) ->
                              exists key m, disk st !! key = Some m /\ timestamp m = x).
      { intros x Hx. rewrite <- E in Hx. apply in_map_iff in Hx.
        destruct Hx as [m [Hm Hin']].
        apply MemoryQueriesFacts.in_loadAllMemories in Hin'.
        destruct Hin' as [key Hkey]. now exists key, m. }
      unfold list_min, list_max. split; [|split].
      * intros key m Hm. specialize (Hin key m Hm).
        destruct (ListingFacts.fold_min_le t ts) as [Hmin1 Hmin2].
        destruct (ListingFacts.fold_max_ge t ts) as [Hmax1 Hmax2].
        destruct Hin as [<-|Hin]; [lia|].
        specialize (Hmin2 _ Hin). specialize (Hmax2 _ Hin). lia.
      * apply Hex. destruct (ListingFacts.fold_min_attained t ts) as [->|H];
          [now left|now right].
      * apply Hex. destruct (ListingFacts.fold_max_attained t ts) as [->|H];
          [now left|now right].
Qed.

Lemma statistics_bound_timestamps_witness :
  let s := getStatistics "/home/dev/.advanced-memory-bank/shop" scenario_store in
  totalMemories s = 2 /\
  oldestMemory s = Some 0 /\ newestMemory s = Some (50 * day).
Proof.
  intros s.
  destruct (statistics_bound_timestamps "/home/dev/.advanced-memory-bank/shop"
              scenario_store) as [Htotal _].
  split; [exact Htotal|]. split; vm_compute; reflexivity.
Defined.

(** X15. A cleanup leaves nothing for a second cleanup: after a cleanup
    whose unlinks all succeed, on memories stored under their own ids, a
    cleanup with the same time and age, whatever its unlinks do, deletes
    nothing and returns 0. *)
Theorem cleanup_twice_deletes_nothing :
  forall u now st maxAge,
    disk_wf st ->
    let st1 := fst (cleanupOldMemories (fun _ => true) now st maxAge) in
    disk_wf st1 /\
    snd (cleanupOldMemories u now st1 maxAge) = 0 /\
    disk (fst (cleanupOldMemories u now st1 maxAge)) = disk st1.
Proof.
  intros u now st maxAge Hwf st1.
  destruct (MemoryStoreFacts.cleanup_spec (fun _ => true) now st maxAge Hwf)
    as [_ [_ Hd]].
  fold st1 in Hd.
  assert (Hsub : forall key m,
             disk st1 !! key = Some m ->
             disk st !! key = Some m /\
             cleanup_removes (fun _ => true) now maxAge m = false).
  { intros key m Hm. rewrite Hd in Hm.
    destruct (disk st !! key) as [m0|]; [|discriminate].
    destruct (cleanup_removes (fun _ => true) now maxAge m0) eqn:E;
      [discriminate|]. injection Hm as <-. now split. }
  assert (Hwf1 : disk_wf st1).
  { intros key m Hm. apply (Hwf key m). now apply Hsub. }
  assert (Hkeep : forall key m,
             disk st1 !! key = Some m -> cleanup_removes u now maxAge m = false).
  { intros key m Hm. destruct (Hsub key m Hm) as [_ H].
    unfold cleanup_removes in *. rewrite andb_true_r in H. now rewrite H. }
  destruct (MemoryStoreFacts.cleanup_spec u now st1 maxAge Hwf1)
    as [Hn [_ Hd1]].
  split; [exact Hwf1|]. split.
  - rewrite Hn.
    assert (H : List.filter (cleanup_removes u now maxAge) (loadAllMemories st1)
                = []).
    { assert (Hall : forall m, In m (loadAllMemories st1) ->
                               cleanup_removes u now maxAge m = false).
      { intros m Hm. apply MemoryQueriesFacts.in_loadAllMemories in Hm.
        destruct Hm as [key Hm]. exact (Hkeep key m Hm). }
      revert Hall. generalize (loadAllMemories st1). intros l.
      induction l as [|m l IH]; intros Hall; [reflexivity|].
      cbn [List.filter]. rewrite (Hall m) by now left.
      apply IH. intros m' Hm'. apply Hall. now right. }
    now rewrite H.
  - apply map_eq. intros key. rewrite Hd1.
    destruct (disk st1 !! key) as [m|] eqn:E; [|reflexivity].
    now rewrite (Hkeep key m E).
Qed.

Lemma cleanup_twice_deletes_nothing_witness :
  let st1 :=
    fst (cleanupOldMemories (fun _ => true) (90 * day) scenario_store
           (30 * day)) in
  disk_wf scenario_store /\
  snd (cleanupOldMemories (fun _ => false) (90 * day) st1 (30 * day)) = 0.
Proof.
  intros st1.
  assert (Hwf : disk_wf scenario_store).
  { intros key m. unfold scenario_store. simpl. intros H.
    apply lookup_insert_Some in H. destruct H as [[<- <-]|[_ H]]; [reflexivity|].
    apply lookup_insert_Some in H. destruct H as [[<- <-]|[_ H]]; [reflexivity|].
    now rewrite lookup_empty in H. }
  destruct (cleanup_twice_deletes_nothing (fun _ => false) (90 * day)
              scenario_store (30 * day) Hwf) as [_ [H _]].
  split; [exact Hwf|exact H].
Defined.

End MemoryExtras.

(** ** Further properties of the project detection *)

Section IdentityExtras.
Import Identity IdentityMethods.

(** X16. The sanitizer always gives a name of 1 to 50 characters out of
    a-z, 0-9, dash and underscore, without a dash in front and without
    two dashes in a row; a name of that form that does not end in a dash
    is returned unchanged.  A dash at the end is possible, because the
    dashes are trimmed before the cut at 50 characters. *)
Theorem sanitizer_gives_well_formed_names :
  (forall n, well_formed_name (sanitizeProjectName n)) /\
  (forall n, well_formed_name n -> ends_with_dash n = false ->
             sanitizeProjectName n = n) /\
  (exists n, ends_with_dash (sanitizeProjectName n) = true).
Proof.
  split; [exact NameFacts.sanitize_well_formed|].
  split; [exact NameFacts.sanitize_id|].
  exists "a123456789b123456789c123456789d123456789e12345678 tail".
  reflexivity.
Qed.

Lemma sanitizer_gives_well_formed_names_witness :
  well_formed_name "my-app_2" /\ ends_with_dash "my-app_2" = false /\
  sanitizeProjectName "my-app_2" = "my-app_2" /\
  sanitizeProjectName "My App!" = "my-app".
Proof.
  assert (Hwf : well_formed_name "my-app_2").
  { repeat split; cbn; lia. }
  destruct sanitizer_gives_well_formed_names as [_ [Hid _]].
  split; [exact Hwf|]. split; [reflexivity|].
  split; [exact (Hid "my-app_2" Hwf eq_refl)|reflexivity].
Defined.

(** X17. Whatever the environment, the name of the detected project is
    well formed: 1 to 50 characters out of a-z, 0-9, dash and
    underscore, no dash in front and no two dashes in a row. *)
Theorem detected_name_is_well_formed :
  forall e, well_formed_name (name (detectProjectNameWithSource e)).
Proof.
  intros e. unfold detectProjectNameWithSource.
  destruct (cascade e) as [r|msg] eqn:E.
  - now apply (NameFacts.cascade_well_formed e).
  - repeat split; cbn; lia.
Qed.

(** X18. A name is valid exactly when it has two characters or more,
    its lower-case form contains none of the forbidden patterns and is
    none of src, dist, build, out, bin, lib, node_modules, temp, tmp,
    .., andre, home, root, dev, code.  The test ignores case; the other
    entries of the list of invalid names and the two one-letter tests
    never decide, so that Documents, Desktop and Downloads are valid. *)
Theorem valid_names_characterised :
  forall n,
    (isValidProjectName n = true <->
     (2 <= String.length n)%nat /\
     (forall p, In p forbiddenPatterns ->
                JsString.includes (JsString.toLowerCase n) p = false) /\
     ~ In (JsString.toLowerCase n) deciding_names) /\
    isValidProjectName (JsString.toLowerCase n) = isValidProjectName n /\
    (In n ["Documents"; "Desktop"; "Downloads"] ->
     In n invalidNames /\ isValidProjectName n = true).
Proof.
  intros n. split; [apply NameFacts.isValidProjectName_spec|]. split.
  - unfold isValidProjectName.
    now rewrite JsStringFacts.toLowerCase_length, NameFacts.toLowerCase_idem.
  - cbn [In]. intros [<-|[<-|[<-|[]]]];
      (split; [apply NameFacts.existsb_eqb_In|]; reflexivity).
Qed.

Lemma valid_names_characterised_witness :
  In "Desktop" ["Documents"; "Desktop"; "Downloads"] /\
  isValidProjectName "Desktop" = true /\
  isValidProjectName "SRC" = false /\
  isValidProjectName "my-blog" = false.
Proof.
  assert (Hin : In "Desktop" ["Documents"; "Desktop"; "Downloads"]).
  { right. left. reflexivity. }
  destruct (valid_names_characterised "Desktop") as [_ [_ H]].
  split; [exact Hin|]. split; [exact (proj2 (H Hin))|].
  split; reflexivity.
Defined.

(** X19. The method of the detected identity is one of those that the
    returns of the detection name, and never the one of the last step
    before the fallback: while the environment does not change during
    the detection, the active workspace looked for there was already
    taken by the third step.  The
    pattern detection is only returned when the working directory is the
    home directory or a system path, and the directory name only for a
    working directory that passes its test. *)
Theorem detection_method_is_reachable :
  forall e,
    let r := detectProjectNameWithSource e in
    In (method r) method_names /\
    method r <> "Active VS Code Workspace Detection" /\
    (method r = "Smart Pattern Detection" ->
     exists dir, cwd e = Return dir /\
                 (dir = homedir e \/ isSystemOrVSCodePath dir = true)) /\
    (method r = "Directory Name" ->
     exists dir, cwd e = Return dir /\ source r = dir /\
                 directory_name_usable e dir = true).
Proof.
  intros e r. subst r. unfold detectProjectNameWithSource.
  destruct (cascade e) as [r|msg] eqn:E.
  - destruct (NameFacts.cascade_methods e r E) as [[H1 H2] [H3 H4]].
    repeat split; assumption.
  - cbn [method error_fallback]. repeat split; try discriminate.
    NameFacts.in_list.
Qed.

Lemma detection_method_is_reachable_witness :
  method (detectProjectNameWithSource (example_env "/work/billing" "billing" true))
    = "Directory Name" /\
  exists dir,
    cwd (example_env "/work/billing" "billing" true) = Return dir /\
    source (detectProjectNameWithSource
              (example_env "/work/billing" "billing" true)) = dir /\
    directory_name_usable (example_env "/work/billing" "billing" true) dir
      = true.
Proof.
  assert (Hm : method (detectProjectNameWithSource
                         (example_env "/work/billing" "billing" true))
               = "Directory Name") by reflexivity.
  destruct (detection_method_is_reachable
              (example_env "/work/billing" "billing" true)) as [_ [_ [_ H]]].
  split; [exact Hm|exact (H Hm)].
Defined.

(** X20. The detection from the workspace variables only returns names
    that pass the validity test, each with the source that names the
    variable it came from; without a name the source is not-detected, or
    detection-error when reading the working directory threw. *)
Theorem workspace_variables_names_are_valid :
  forall e getenv,
    let c := workspace_variables e getenv in
    (forall n, cand_name c = Some n ->
       n <> "" /\ isValidProjectName n = true /\ usable c = Some n /\
       In (cand_source c)
          [ "VSCODE_WORKSPACE_NAME env var"; "VSCODE_WORKSPACE_FOLDER env var";
            "VSCODE_CWD env var";
            "VS Code terminal context with project indicators" ]) /\
    (cand_name c = None ->
       In (cand_source c) ["not-detected"; "detection-error"]).
Proof.
  intros e getenv c. subst c.
  assert (Hsome : forall c n,
             cand_name c = Some n -> isValidProjectName n = true ->
             n <> "" /\ isValidProjectName n = true /\ usable c = Some n).
  { intros c n Hc Hv. pose proof (NameFacts.valid_not_empty n Hv) as Hne.
    split; [exact Hne|]. split; [exact Hv|].
    unfold usable. rewrite Hc, Hv.
    apply String.eqb_neq in Hne. now rewrite Hne. }
  set (P := fun a : attempt candidate =>
    let c := recovered a (fun _ => "detection-error") in
    (forall n, cand_name c = Some n ->
       n <> "" /\ isValidProjectName n = true /\ usable c = Some n /\
       In (cand_source c)
          [ "VSCODE_WORKSPACE_NAME env var"; "VSCODE_WORKSPACE_FOLDER env var";
            "VSCODE_CWD env var";
            "VS Code terminal context with project indicators" ]) /\
    (cand_name c = None ->
       In (cand_source c) ["not-detected"; "detection-error"])).
  assert (Hnone : P (Return not_detected)).
  { split; [discriminate|]. intros _. now left. }
  assert (Hthrow : forall msg, P (Throw msg)).
  { intros msg. split; [discriminate|]. intros _. right. now left. }
  assert (Hfound : forall n src,
             isValidProjectName n = true ->
             In src
               [ "VSCODE_WORKSPACE_NAME env var";
                 "VSCODE_WORKSPACE_FOLDER env var"; "VSCODE_CWD env var";
                 "VS Code terminal context with project indicators" ] ->
             P (Return {| cand_name := Some n; cand_source := src |})).
  { intros n src Hv Hsrc. split; [|discriminate].
    intros n' [= <-].
    destruct (Hsome {| cand_name := Some n; cand_source := src |} n eq_refl Hv)
      as [H1 [H2 H3]].
    repeat split; assumption. }
  assert (Hterm : P (terminal_context e getenv)).
  { unfold terminal_context.
    destruct (getenv "TERM_PROGRAM") as [term|]; [|exact Hnone].
    destruct (String.eqb term "vscode"); [|exact Hnone].
    destruct (cwd e) as [dir|msg]; [|apply Hthrow].
    destruct (negb (String.eqb dir (homedir e)) && hasProjectIndicators e dir
              && negb (isSystemOrVSCodePath dir)
              && isValidProjectName (basename e dir)) eqn:Hc; [|exact Hnone].
    apply andb_prop in Hc. destruct Hc as [_ Hv].
    apply Hfound; [exact Hv|]. cbn [In]. tauto. }
  assert (Hfolder : forall value src rest,
             In src
               [ "VSCODE_WORKSPACE_NAME env var";
                 "VSCODE_WORKSPACE_FOLDER env var"; "VSCODE_CWD env var";
                 "VS Code terminal context with project indicators" ] ->
             P rest -> P (folder_variable e value src rest)).
  { intros value src rest Hsrc Hrest. unfold folder_variable.
    destruct value as [folder|]; [|exact Hrest].
    destruct (project_folder e folder && isValidProjectName (basename e folder))
      eqn:Hc; [|exact Hrest].
    apply andb_prop in Hc. destruct Hc as [_ Hv]. now apply Hfound. }
  assert (Hrest : P (folder_variable e (getenv "VSCODE_WORKSPACE_FOLDER")
                       "VSCODE_WORKSPACE_FOLDER env var"
                       (folder_variable e (getenv "VSCODE_CWD")
                          "VSCODE_CWD env var" (terminal_context e getenv)))).
  { apply Hfolder; [cbn [In]; tauto|].
    apply Hfolder; [cbn [In]; tauto|exact Hterm]. }
  change (P (try_workspace_variables e getenv)).
  unfold try_workspace_variables.
  destruct (getenv "VSCODE_WORKSPACE_NAME") as [w|]; [|exact Hrest].
  destruct (valid_candidate_name w) eqn:Hw; [|exact Hrest].
  unfold valid_candidate_name in Hw. apply andb_prop in Hw.
  destruct Hw as [_ Hv]. apply Hfound; [exact Hv|]. cbn [In]. tauto.
Qed.

Lemma workspace_variables_names_are_valid_witness :
  let c := workspace_variables (example_env "/work/billing" "billing" false)
             (workspace_name_only "billing") in
  cand_name c = Some "billing" /\ usable c = Some "billing".
Proof.
  intros c.
  destruct (workspace_variables_names_are_valid
              (example_env "/work/billing" "billing" false)
              (workspace_name_only "billing")) as [H _].
  destruct (H "billing" eq_refl) as [_ [_ [Hu _]]].
  split; [reflexivity|exact Hu].
Defined.



(** X22. The path test ignores case and looks anywhere in the path: a
    path that contains a blocked path is blocked.  In a working
    directory that contains a blocked path the directory name is never
    returned with the method Directory Name. *)
Theorem blocked_path_blocks_longer_paths :
  forall p pre post,
    isSystemOrVSCodePath p = true ->
    isSystemOrVSCodePath (pre ++ p ++ post) = true /\
    isSystemOrVSCodePath (JsString.toLowerCase p) = true /\
    forall e,
      cwd e = Return (pre ++ p ++ post)%string ->
      method (detectProjectNameWithSource e) <> "Directory Name".
Proof.
  intros p pre post Hp.
  pose proof (NameFacts.isSystemOrVSCodePath_append p pre post Hp) as Hlong.
  split; [exact Hlong|]. split.
  - unfold isSystemOrVSCodePath in *. now rewrite NameFacts.toLowerCase_idem.
  - intros e Hcwd Hm. unfold detectProjectNameWithSource in Hm.
    destruct (cascade e) as [r|msg] eqn:E; [|discriminate].
    destruct (NameFacts.cascade_methods e r E) as [_ [_ H]].
    destruct (H Hm) as [dir [Hdir [_ Hu]]].
    rewrite Hcwd in Hdir. injection Hdir as <-.
    unfold directory_name_usable in Hu. rewrite Hlong in Hu.
    cbn [negb] in Hu. rewrite andb_false_r in Hu. discriminate.
Qed.

Lemma blocked_path_blocks_longer_paths_witness :
  isSystemOrVSCodePath "Logs" = true /\
  isSystemOrVSCodePath "/srv/Logs/billing" = true /\
  method (detectProjectNameWithSource
            (example_env "/srv/Logs/billing" "billing" true))
    <> "Directory Name".
Proof.
  assert (Hp : isSystemOrVSCodePath "Logs" = true) by reflexivity.
  destruct (blocked_path_blocks_longer_paths "Logs" "/srv/" "/billing" Hp)
    as [Hlong [_ H]].
  split; [exact Hp|]. split; [exact Hlong|].
  exact (H (example_env "/srv/Logs/billing" "billing" true) eq_refl).
Defined.

End IdentityExtras.

(** ** Properties of the tool handlers of the topic server *)

Section ToolExtras.
Import TopicStore TopicTools.


(** X24. A tool response that is an error leaves every project file as
    it was, for the store, update, delete and reset tools. *)
Theorem tool_errors_change_no_file :
  forall w u now fs p t c tg i c' tg' i' confirm,
    (isError (snd (tool_store w now fs p t c tg i)) = true ->
     fst (tool_store w now fs p t c tg i) = fs) /\
    (isError (snd (tool_update w now fs p t c' tg' i')) = true ->
     fst (tool_update w now fs p t c' tg' i') = fs) /\
    (isError (snd (tool_delete w fs p t)) = true ->
     fst (tool_delete w fs p t) = fs) /\
    (isError (snd (tool_reset u fs p confirm)) = true ->
     fst (tool_reset u fs p confirm) = fs).
Proof.
  intros w u now fs p t c tg i c' tg' i' confirm.
  split; [|split; [|split]].
  - unfold tool_store, storeTopicMemory, saveProject.
    destruct w; cbn [fst snd isError ok_response error_response];
      [discriminate|reflexivity].
  - unfold tool_update, updateTopicMemory, saveProject.
    destruct (JsObject.get t (loadProject fs p)) as [[oc ot oi ots olm]|];
      [destruct w|]; cbn [fst snd isError ok_response error_response];
      try discriminate; reflexivity.
  - unfold tool_delete, deleteTopicMemory, saveProject.
    destruct (JsObject.get t (loadProject fs p)) as [m|];
      [destruct w|]; cbn [fst snd isError ok_response error_response];
      try discriminate; reflexivity.
  - unfold tool_reset, TopicProject.resetProject.
    destruct confirm; cbn [negb]; [|discriminate].
    destruct (fs !! p); [destruct u|];
      cbn [fst snd isError ok_response error_response];
      try discriminate; reflexivity.
Qed.

Lemma tool_errors_change_no_file_witness :
  isError (snd (tool_update true 30 shop_files "shop" "todo" (Some "x") None
                  None)) = true /\
  fst (tool_update true 30 shop_files "shop" "todo" (Some "x") None None)
    = shop_files.
Proof.
  assert (He : isError (snd (tool_update true 30 shop_files "shop" "todo"
                               (Some "x") None None)) = true) by reflexivity.
  destruct (tool_errors_change_no_file true true 30 shop_files "shop" "todo"
              "" None None (Some "x") None None true) as [_ [H _]].
  split; [exact He|exact (H He)].
Defined.



End ToolExtras.

